(** * echoflow: the pipeline orchestration core

    A shallow embedding of the orchestration core of echoflow and the
    properties its specification states about it:

    - [Tasks]     : [parse_raw_json] of [echoflow/convert/tasks.py]
                    (the weekly chunker);
    - [FileUtils] : [process_output_transects] of
                    [echoflow/stages/utils/file_utils.py] (the result
                    aggregator);
    - [FetchUtils]: [parse_file_path] of [echoflow/subflows/fetch/utils.py]
                    (the temporal classifier);
    - [InitFlow]  : [init_flow] of
                    [echoflow/stages_v2/subflows/initialization_flow.py]
                    (the orchestration loop and the compute backend);
    - [Echoflow]  : the profiles and configuration blocks and
                    [echoflow_start] of
                    [echoflow/stages_v2/subflows/echoflow.py].

    Python dictionaries whose iteration order is observable are association
    lists; dictionaries that are only looked up are [gmap]s.  Exceptions are
    explicit results.  Calls into other libraries (re, dateutil, dask,
    prefect) and into modules of echoflow that are not part of the core are
    operations of a type class. *)

From stdpp Require Import gmap strings list sorting.
From Stdlib Require Import ZArith Lia.

Local Open Scope Z_scope.
Local Open Scope nat_scope.

(** ** Python built-ins used by the core *)

Module Py.

(** [range(start, stop, step)] for a positive [step]; the fuel bounds the
    number of elements, [stop - start] of them are enough. *)
Fixpoint range_from (fuel i stop step : nat) : list nat :=
  match fuel with
  | O => []
  | S fuel' =>
      if decide (i < stop) then i :: range_from fuel' (i + step) stop step
      else []
  end.

Definition range (start stop step : nat) : list nat :=
  range_from (stop - start) start stop step.

(** The slice [l[i:j]] for [0 <= i <= j]; it stops at the end of [l]. *)
Definition slice {A} (l : list A) (i j : nat) : list A :=
  take (j - i) (drop i l).

(** [sorted(s)] of a set of integers. *)
Definition sorted (s : gset Z) : list Z := merge_sort Z.le (elements s).

(** [itertools.chain.from_iterable] followed by [list]. *)
Definition chain_from_iterable {A} (ls : list (list A)) : list A := concat ls.

(** Exceptions.  [Propagated] stands for whatever a collaborator raises. *)
Inductive exn :=
  | ValueError (msg : string)
  | KeyError
  | TypeError (msg : string)
  | AttributeError (msg : string)
  | UnboundLocalError (variable : string)
  | Propagated (origin : string).

(** A computation that returns a value or raises. *)
Definition result (A : Type) : Type := exn + A.

Definition ret {A} (a : A) : result A := inr a.
Definition raise {A} (e : exn) : result A := inl e.
Definition bind {A B} (c : result A) (k : A → result B) : result B :=
  match c with
  | inl e => inl e
  | inr a => k a
  end.

(** A [dict] whose iteration order is observed: keys in insertion order. *)
Abbreviation odict K V := (list (K * V)).

Section odict.
Context {K V : Type} `{EqDecision K}.

(** [k in d] *)
Definition odict_in (k : K) (d : odict K V) : bool :=
  bool_decide (k ∈ d.*1).

(** [d[k]] *)
Fixpoint odict_get (k : K) (d : odict K V) : result V :=
  match d with
  | [] => raise KeyError
  | (k', v) :: d' => if decide (k' = k) then ret v else odict_get k d'
  end.

(** [d[k] = v]: a present key keeps its place, a new one goes last. *)
Fixpoint odict_set (k : K) (v : V) (d : odict K V) : odict K V :=
  match d with
  | [] => [(k, v)]
  | (k', v') :: d' =>
      if decide (k' = k) then (k', v) :: d' else (k', v') :: odict_set k v d'
  end.

(** [d.keys()] *)
Definition odict_keys (d : odict K V) : list K := d.*1.
End odict.

(** [d.setdefault(k, v)] on a dictionary that is only looked up. *)
Definition setdefault {V} (k : string) (v : V) (d : gmap string V)
  : gmap string V :=
  match d !! k with
  | Some _ => d
  | None => <[k := v]> d
  end.

End Py.

Declare Scope py_scope.
Notation "'let*' x ':=' c 'in' k" := (Py.bind c (λ x, k))
  (at level 10, x pattern, c at level 100, k at level 200) : py_scope.
Local Open Scope py_scope.

(** ** convert/tasks.py *)

Module Tasks.

(** The raw url dictionary assumed by [parse_raw_json]'s docstring. *)
Record RawDict := {
  instrument : string;
  file_path : string;
  month : Z;
  year : Z;
  jday : Z;
  datetime : string
}.

(** Number of days for a week chunk. *)
Definition n : nat := 7.

Definition all_jdays (raw_dicts : list RawDict) : list Z :=
  Py.sorted (list_to_set (jday <$> raw_dicts)).

Definition split_days (raw_dicts : list RawDict) : list (list Z) :=
  let all_jdays := all_jdays raw_dicts in
  (λ i, Py.slice all_jdays i (i + n)) <$> Py.range 0 (length all_jdays) n.

(** One iteration of the loop that fills [day_dict]. *)
Definition day_dict_step (day_dict : gmap Z (list RawDict)) (r : RawDict)
  : gmap Z (list RawDict) :=
  let mint := jday r in
  let day_dict :=
    match day_dict !! mint with
    | None => <[mint := []]> day_dict
    | Some _ => day_dict
    end in
  alter (λ files, files ++ [r]) mint day_dict.

Definition day_dict (raw_dicts : list RawDict) : gmap Z (list RawDict) :=
  foldl day_dict_step ∅ raw_dicts.

(** [parse_raw_json] after the json file has been loaded into [raw_dicts].
    A failing subscript [day_dict[d]] (KeyError) gives [None]. *)
Definition parse_raw_json (raw_dicts : list RawDict)
  : option (list (list RawDict)) :=
  let day_dict := day_dict raw_dicts in
  mapM (λ week : list Z,
          Py.chain_from_iterable <$> mapM (λ d, day_dict !! d) week)
       (split_days raw_dicts).

End Tasks.

(** ** stages/utils/file_utils.py *)

Module FileUtils.
Import Py.

(** An echodata dictionary: [{"transect": 1, "data": {...}, "error": False}]. *)
Record Ed := {
  transect : Z;
  data : string;
  error : bool
}.

(** [Output], of which only the attribute [data] is set here. *)
Record Output := { output_data : list Ed }.

Definition failure_message (name : string) : string :=
  "Could not complete " +:+ name +:+ " successfully since 1 or more raw files"
    +:+ "failed to convert. Try fixing or skipping the files from the process."
    +:+ "If `use_offline` flag is set to true, processed files will be skipped the next run.".

(** The first loop, from the dictionary built so far. *)
Fixpoint collect (name : string) (ed_list : list Ed)
    (transect_dict : odict Z (list Ed)) : result (odict Z (list Ed)) :=
  match ed_list with
  | [] => ret transect_dict
  | ed :: ed_list' =>
      if error ed then raise (ValueError (failure_message name))
      else
        let transect := transect ed in
        let* transect_dict :=
          if odict_in transect transect_dict then
            let* eds := odict_get transect transect_dict in
            ret (odict_set transect (eds ++ [ed]) transect_dict)
          else ret (odict_set transect [ed] transect_dict) in
        collect name ed_list' transect_dict
  end.

(** The second loop, over [transect_dict.keys()]. *)
Fixpoint emit (transect_dict : odict Z (list Ed)) (keys : list Z)
    (outputs : list Output) : result (list Output) :=
  match keys with
  | [] => ret outputs
  | transect :: keys' =>
      let* eds := odict_get transect transect_dict in
      let output := {| output_data := eds |} in
      emit transect_dict keys' (outputs ++ [output])
  end.

Definition process_output_transects (name : string) (ed_list : list Ed)
  : result (list Output) :=
  let* transect_dict := collect name ed_list [] in
  emit transect_dict (odict_keys transect_dict) [].

End FileUtils.

(** ** subflows/fetch/utils.py *)

Module FetchUtils.
Import Py.

(** The values of the dictionary [parse_file_path] returns. *)
Inductive Value :=
  | VNone
  | VStr (s : string)
  | VInt (z : Z).

(** The regular-expression and date-parsing libraries.  A match object is
    its [groupdict()]: the named groups, a group that took no part in the
    match being [None]. *)
Class Libraries := {
  Pattern : Type;
  DateTime : Type;
  re_compile : string → result Pattern;
  search : Pattern → string → option (gmap string (option string));
  parser_parse : string → result DateTime;
  isoformat : DateTime → string;
  tm_yday : DateTime → Z;
  dt_month : DateTime → Z;
  dt_year : DateTime → Z
}.

(** [str(g)] of a group inside an f-string. *)
Definition format_group (g : option string) : string :=
  match g with
  | Some s => s
  | None => "None"
  end.

Definition group_value (g : option string) : Value :=
  match g with
  | Some s => VStr s
  | None => VNone
  end.

Section parse_file_path.
Context `{Libraries}.

Definition parse_file_path (raw_file fname_pattern : string)
  : result (gmap string Value) :=
  let* matcher := re_compile fname_pattern in
  let file_match := search matcher raw_file in
  let* groups :=
    match file_match with
    | None => raise (AttributeError "'NoneType' object has no attribute 'groupdict'")
    | Some groups => ret groups
    end in
  let match_dict : gmap string Value := group_value <$> groups in
  let file_datetime := VNone in
  let* (match_dict, file_datetime) :=
    match groups !! "date", groups !! "time" with
    | Some date, Some time =>
        let* datetime_obj :=
          parser_parse (format_group date +:+ format_group time) in
        let file_datetime := VStr (isoformat datetime_obj) in
        let jday := tm_yday datetime_obj in
        let match_dict := delete "date" match_dict in
        let match_dict := delete "time" match_dict in
        let match_dict := setdefault "month" (VInt (dt_month datetime_obj)) match_dict in
        let match_dict := setdefault "year" (VInt (dt_year datetime_obj)) match_dict in
        let match_dict := setdefault "jday" (VInt jday) match_dict in
        ret (match_dict, file_datetime)
    | _, _ => ret (match_dict, file_datetime)
    end in
  let match_dict := setdefault "datetime" file_datetime match_dict in
  ret match_dict.
End parse_file_path.

End FetchUtils.

(** ** stages_v2/subflows/initialization_flow.py *)

Module InitFlow.
Import Py.

(** The recipe models of [echoflow.config.models.pipeline], with the
    attributes the flow reads. *)
Record Stage := {
  name : string;
  module : string;
  options : gmap string string
}.

Record Process := { stages : list Stage }.

Record Recipe := {
  pipeline : list Process;
  scheduler_address : option string;
  use_local_dask : bool
}.

(** Values of the options passed to [with_options]. *)
Inductive OptionValue :=
  | NoneValue
  | DaskTaskRunner (address : string)
  | OtherValue (repr : string).

Abbreviation PrefectConfig := (gmap string OptionValue).

(** [prefect_config_dict.get("task_runner") is None] *)
Definition task_runner_is_None (prefect_config_dict : PrefectConfig) : bool :=
  match prefect_config_dict !! "task_runner" with
  | None | Some NoneValue => true
  | Some _ => false
  end.

(** [init_flow] is modelled by its body; the decorators [flow] and
    [echoflow] that wrap it are not part of the core.

    What the flow calls: the helpers of [config_utils] and
    [function_utils], the stage flows themselves (a [Flow], configured by
    [with_options] and then called), and dask's [LocalCluster] and
    [Client]. *)
Class Collaborators := {
  Dataset : Type;
  RawFiles : Type;
  FileDict : Type;
  StorageOptions : Type;
  Data : Type;
  Flow : Type;
  Cluster : Type;
  Client : Type;
  raw_json_path : Dataset → option string;
  output_storage_options_dict : Dataset → StorageOptions;
  glob_all_files : Dataset → result RawFiles;
  parse_raw_paths : RawFiles → Dataset → result (list FileDict);
  club_raw_files :
    Dataset → list FileDict → option string → StorageOptions → result Data;
  dynamic_function_call : string → string → result Flow;
  get_prefect_config_dict :
    Stage → Recipe → option PrefectConfig → result (option PrefectConfig);
  with_options : Flow → PrefectConfig → result Flow;
  call : Flow → Dataset → Stage → Data → result Data;
  LocalCluster : nat → result Cluster;
  cluster_scheduler_address : Cluster → string;
  new_Client : string → result Client;
  client_scheduler_address : Client → string
}.

Section init_flow.
Context `{Collaborators}.

(** What a run does to the world, in the order it does it.  The progress
    messages it prints are left out. *)
Inductive event :=
  | EvLocalCluster (cluster : Cluster)
  | EvClient (address : string) (client : Client)
  | EvDaskTaskRunner (client : Client)
  | EvCall (stage : Stage) (input : Data) (output : result Data)
  | EvClose (client : Client).

(** A computation that appends to the trace and returns or raises. *)
Definition M (A : Type) : Type := list event → result A * list event.

Definition mpure {A} (a : A) : M A := λ tr, (inr a, tr).
Definition throw {A} (e : exn) : M A := λ tr, (inl e, tr).
Definition lift {A} (r : result A) : M A := λ tr, (r, tr).
Definition log (e : event) : M unit := λ tr, (inr (), tr ++ [e]).
Definition mseq {A B} (c : M A) (k : A → M B) : M B :=
  λ tr, match c tr with
        | (inl e, tr') => (inl e, tr')
        | (inr a, tr') => k a tr'
        end.

Notation "'let!' x ':=' c 'in' k" := (mseq c (λ x, k))
  (at level 10, x pattern, c at level 100, k at level 200).

Fixpoint for_each {A S} (xs : list A) (body : A → S → M S) (s : S) : M S :=
  match xs with
  | [] => mpure s
  | x :: xs' => let! s := body x s in for_each xs' body s
  end.

(** The local variables the loops update. *)
Record Locals := {
  prefect_config_dict : option PrefectConfig;
  client : option Client;
  data : Data;
  output : option Data
}.

(** [prefect_config_dict["task_runner"] =
      DaskTaskRunner(address=client.scheduler.address)] *)
Definition set_task_runner (prefect_config_dict : option PrefectConfig)
    (client : Client) : M (option PrefectConfig) :=
  let! _ := log (EvDaskTaskRunner client) in
  match prefect_config_dict with
  | None => throw (TypeError "'NoneType' object does not support item assignment")
  | Some d =>
      mpure (Some (<["task_runner" :=
                      DaskTaskRunner (client_scheduler_address client)]> d))
  end.

(** The [if]/[elif] statement of the loop body, which chooses the task
    runner of the stage: it reads and updates [prefect_config_dict] and
    [client]. *)
Definition select_backend (recipe : Recipe)
    (prefect_config_dict : option PrefectConfig) (client : option Client)
  : M (option PrefectConfig * option Client) :=
  let elif : M (option PrefectConfig * option Client) :=
    if use_local_dask recipe
       && bool_decide (is_Some prefect_config_dict)
       && from_option task_runner_is_None false prefect_config_dict
    then
      let! client :=
        match client with
        | None =>
            let! cluster := lift (LocalCluster 3) in
            let! _ := log (EvLocalCluster cluster) in
            let address := cluster_scheduler_address cluster in
            let! client := lift (new_Client address) in
            let! _ := log (EvClient address client) in
            mpure client
        | Some client => mpure client
        end in
      let! prefect_config_dict := set_task_runner prefect_config_dict client in
      mpure (prefect_config_dict, Some client)
    else mpure (prefect_config_dict, client) in
  match scheduler_address recipe with
  | Some address =>
      if bool_decide (use_local_dask recipe = false) then
        let! client :=
          match client with
          | None =>
              let! client := lift (new_Client address) in
              let! _ := log (EvClient address client) in
              mpure client
          | Some client => mpure client
          end in
        let! prefect_config_dict := set_task_runner prefect_config_dict client in
        mpure (prefect_config_dict, Some client)
      else elif
  | None => elif
  end.

(** The body of the loop over the stages of a process. *)
Definition stage_body (recipe : Recipe) (dataset : Dataset)
    (stage : Stage) (l : Locals) : M Locals :=
  let! function := lift (dynamic_function_call (module stage) (name stage)) in
  let! prefect_config_dict :=
    lift (get_prefect_config_dict stage recipe (prefect_config_dict l)) in
  let! (prefect_config_dict, client) :=
    select_backend recipe prefect_config_dict (client l) in
  let! function :=
    match prefect_config_dict with
    | None => throw (TypeError "argument after ** must be a mapping, not NoneType")
    | Some d => lift (with_options function d)
    end in
  let returned := call function dataset stage (data l) in
  let! _ := log (EvCall stage (data l) returned) in
  let! output := lift returned in
  mpure {| prefect_config_dict := prefect_config_dict;
           client := client;
           data := output;
           output := Some output |}.

(** The first statements of [init_flow], which compute [data]: the file
    collection the first stage receives. *)
Definition classified_files (dataset : Dataset) : result Data :=
  let file_dicts : list FileDict := [] in
  let* file_dicts :=
    match raw_json_path dataset with
    | None =>
        let* total_files := glob_all_files dataset in
        parse_raw_paths total_files dataset
    | Some _ => ret file_dicts
    end in
  club_raw_files dataset file_dicts (raw_json_path dataset)
    (output_storage_options_dict dataset).

Definition init_flow (recipe : Recipe) (dataset : Dataset) : M Data :=
  let prefect_config_dict : option PrefectConfig := Some ∅ in
  let! data := lift (classified_files dataset) in
  let process_list := pipeline recipe in
  let! l :=
    for_each process_list
      (λ process, for_each (stages process) (stage_body recipe dataset))
      {| prefect_config_dict := prefect_config_dict;
         client := None;
         data := data;
         output := None |} in
  let! _ :=
    if bool_decide (scheduler_address recipe = None) && use_local_dask recipe
    then
      match client l with
      | None => throw (AttributeError "'NoneType' object has no attribute 'close'")
      | Some client => log (EvClose client)
      end
    else mpure () in
  match output l with
  | None => throw (UnboundLocalError "output")
  | Some output => mpure output
  end.

(** A run from the empty trace: what it returns or raises, and what it did. *)
Definition run (recipe : Recipe) (dataset : Dataset)
  : result Data * list event :=
  init_flow recipe dataset [].

(** What a trace holds of each kind of event, in order. *)
Definition clusters (tr : list event) : list Cluster :=
  omap (λ e, match e with EvLocalCluster cluster => Some cluster | _ => None end) tr.
Definition clients (tr : list event) : list (string * Client) :=
  omap (λ e, match e with EvClient address client => Some (address, client) | _ => None end) tr.
Definition runners (tr : list event) : list Client :=
  omap (λ e, match e with EvDaskTaskRunner client => Some client | _ => None end) tr.
Definition closes (tr : list event) : list Client :=
  omap (λ e, match e with EvClose client => Some client | _ => None end) tr.
Definition calls (tr : list event) : list (Stage * Data * result Data) :=
  omap (λ e, match e with EvCall stage input output => Some (stage, input, output) | _ => None end) tr.
End init_flow.

End InitFlow.

(** ** stages_v2/subflows/echoflow.py *)

Module Echoflow.
Import Py.

(** *** Removing from a list while iterating over it *)

Section list_remove.
Context {A : Type} `{EqDecision A}.

(** [l.remove(x)] for an [x] that is in [l]: the first element equal to [x]
    goes. *)
Fixpoint list_remove (x : A) (l : list A) : list A :=
  match l with
  | [] => []
  | y :: l' => if decide (y = x) then l' else y :: list_remove x l'
  end.

(** [for p in l: if test(p): l.remove(p)], from the index [i] of the list
    iterator: the iterator reads [l[i]] from the list as it is now and moves
    on to [i + 1], whatever the body removed.  [length l] steps are
    enough. *)
Fixpoint remove_in_loop (test : A → bool) (fuel i : nat) (l : list A)
  : list A :=
  match fuel with
  | O => l
  | S fuel' =>
      match l !! i with
      | None => l
      | Some p =>
          remove_in_loop test fuel' (S i)
            (if test p then list_remove p l else l)
      end
  end.

Definition remove_while_iterating (test : A → bool) (l : list A) : list A :=
  remove_in_loop test (length l) 0 l.
End list_remove.

(** *** The data *)

(** The classes [BaseConfig], [EchoflowConfig] and [EchoflowPrefectConfig]
    of [echoflow.config.echoflow_config] are records of the attributes this
    file gives them. *)

(** A profile of [~/.prefect/profiles.toml]: a table of settings. *)
Abbreviation Profile := (gmap string string).

(** The file [profiles.toml]: the key [active] and the table [profiles]. *)
Record ProfilesToml := {
  toml_active : option string;
  toml_profiles : option (gmap string Profile)
}.

(** [BaseConfig(name, type, active, options)] *)
Record BaseConfig := {
  base_name : string;
  base_type : string;
  base_active : bool;
  base_options : gmap string string
}.

Global Instance BaseConfig_eq_dec : EqDecision BaseConfig.
Proof. solve_decision. Defined.

(** The block [EchoflowConfig(active, prefect_configs, blocks)]. *)
Record EchoflowConfig := {
  active : option string;
  prefect_configs : option (list string);
  blocks : option (list BaseConfig)
}.

(** The block [EchoflowPrefectConfig]. *)
Record EchoflowPrefectConfig := {
  prefect_account_id : option string;
  prefect_workspace_id : option string;
  prefect_api_key : option string;
  profile_name : string
}.

(** The credential blocks of [prefect_aws] and [prefect_azure]. *)
Inductive Credentials :=
  | AwsCredentials (aws_access_key_id aws_secret_access_key : string)
      (aws_session_token region_name : option string)
  | AzureCosmosDbCredentials (connection_string : string).

(** Values of the [options] of [echoflow_start]. *)
Inductive OptionValue :=
  | ONone
  | OBool (b : bool)
  | OInt (z : Z)
  | OStr (s : string).

(** [v == False] *)
Definition eq_False (v : OptionValue) : bool :=
  match v with
  | OBool false | OInt 0 => true
  | _ => false
  end.

(** [v is not None] *)
Definition is_not_None (v : OptionValue) : bool :=
  match v with
  | ONone => false
  | _ => true
  end.

(** What [echoflow_start] is given and calls: the configurations it hands
    on, a prefect block of storage options with [get_storage_options] of
    [config_utils], the flow [pipeline_trigger], and the value the class
    [EchoflowConfig] gives to [active] when it is not passed. *)
Class Environment := {
  ConfigSource : Type;
  Block : Type;
  get_storage_options : Block → result (gmap string string);
  pipeline_trigger :
    ConfigSource → ConfigSource → ConfigSource → gmap string string →
    result unit;
  default_active : option string
}.

Section echoflow.
Context `{Environment}.

(** The argument [storage_options]: a dictionary, a block or [None]. *)
Inductive StorageOptions :=
  | StorageNone
  | StorageDict (d : gmap string string)
  | StorageBlock (b : Block).

(** The world outside: the file [~/.prefect/profiles.toml] ([None] when
    there is none), the prefect blocks saved under a name (a block that was
    never saved is not found: [load] raises [ValueError]; [save] with
    [overwrite=True] replaces it), whether the internet can be reached, and
    the calls of [pipeline_trigger] so far. *)
Record World := {
  profiles_file : option ProfilesToml;
  echoflow_config : option EchoflowConfig;
  prefect_profiles : gmap string EchoflowPrefectConfig;
  credentials : gmap string Credentials;
  online : bool;
  triggered :
    list (ConfigSource * ConfigSource * ConfigSource * gmap string string)
}.

(** A computation that changes the world and returns or raises. *)
Definition W (A : Type) : Type := World → result A * World.

Definition wpure {A} (a : A) : W A := λ w, (inr a, w).
Definition wraise {A} (e : exn) : W A := λ w, (inl e, w).
Definition wlift {A} (r : result A) : W A := λ w, (r, w).
Definition wseq {A B} (c : W A) (k : A → W B) : W B :=
  λ w, match c w with
       | (inl e, w') => (inl e, w')
       | (inr a, w') => k a w'
       end.

Local Notation "'let!' x ':=' c 'in' k" := (wseq c (λ x, k))
  (at level 10, x pattern, c at level 100, k at level 200).

(** [try: body except ValueError: handler] *)
Definition try_except_ValueError {A} (body handler : W A) : W A :=
  λ w, match body w with
       | (inl (ValueError _), w') => handler w'
       | outcome => outcome
       end.

(** [with open(config_path, "r") as f: config = toml.load(f)] *)
Definition read_profiles : W ProfilesToml :=
  λ w, match profiles_file w with
       | None => (inl (Propagated "FileNotFoundError"), w)
       | Some config => (inr config, w)
       end.

(** [with open(config_path, "w") as f: toml.dump(config, f)] *)
Definition write_profiles (config : ProfilesToml) : W unit :=
  λ w, (inr (),
        {| profiles_file := Some config;
           echoflow_config := echoflow_config w;
           prefect_profiles := prefect_profiles w;
           credentials := credentials w;
           online := online w;
           triggered := triggered w |}).

(** [EchoflowConfig.load("echoflow-config", validate=False)] *)
Definition load_echoflow_config : W EchoflowConfig :=
  λ w, match echoflow_config w with
       | None => (inl (ValueError "Unable to find block document named echoflow-config"), w)
       | Some config => (inr config, w)
       end.

(** [config.save("echoflow-config", overwrite=True)] *)
Definition save_echoflow_config (config : EchoflowConfig) : W unit :=
  λ w, (inr (),
        {| profiles_file := profiles_file w;
           echoflow_config := Some config;
           prefect_profiles := prefect_profiles w;
           credentials := credentials w;
           online := online w;
           triggered := triggered w |}).

(** [prefect_config.save(name=profile_name, overwrite=True)] *)
Definition save_prefect_config (name : string) (config : EchoflowPrefectConfig)
  : W unit :=
  λ w, (inr (),
        {| profiles_file := profiles_file w;
           echoflow_config := echoflow_config w;
           prefect_profiles := <[name := config]> (prefect_profiles w);
           credentials := credentials w;
           online := online w;
           triggered := triggered w |}).

(** [block.save(name, overwrite=True)] of a credential block *)
Definition save_credentials (name : string) (block : Credentials) : W unit :=
  λ w, (inr (),
        {| profiles_file := profiles_file w;
           echoflow_config := echoflow_config w;
           prefect_profiles := prefect_profiles w;
           credentials := <[name := block]> (credentials w);
           online := online w;
           triggered := triggered w |}).

(** [check_internet_connection()] *)
Definition check_internet_connection : W bool := λ w, (inr (online w), w).

(** The call of [pipeline_trigger]. *)
Definition call_pipeline_trigger
    (dataset_config pipeline_config logging_config : ConfigSource)
    (storage_options : gmap string string) : W unit :=
  λ w, (pipeline_trigger dataset_config pipeline_config logging_config
          storage_options,
        {| profiles_file := profiles_file w;
           echoflow_config := echoflow_config w;
           prefect_profiles := prefect_profiles w;
           credentials := credentials w;
           online := online w;
           triggered :=
             triggered w
             ++ [(dataset_config, pipeline_config, logging_config,
                  storage_options)] |}).

Definition update_prefect_config
    (prefect_api_key prefect_account_id prefect_workspace_id : option string)
    (profile_name : string) (active : bool) : W unit :=
  let profiles : list string := [] in
  let prefect_config :=
    {| prefect_account_id := prefect_account_id;
       prefect_workspace_id := prefect_workspace_id;
       prefect_api_key := prefect_api_key;
       profile_name := profile_name |} in
  let! _ := save_prefect_config profile_name prefect_config in
  let active_profile : option string := None in
  let active_profile := if active then Some profile_name else active_profile in
  let profiles := profiles ++ [profile_name] in
  try_except_ValueError
    (let! current_config := load_echoflow_config in
     let (active_profile, profiles) :=
       match prefect_configs current_config with
       | Some configs =>
           let active_profile :=
             match active_profile with
             | None => Echoflow.active current_config
             | Some _ => active_profile
             end in
           let profiles := configs in
           let profiles :=
             remove_while_iterating (λ p, bool_decide (p = profile_name))
               profiles in
           let profiles := profiles ++ [profile_name] in
           (active_profile, profiles)
       | None => (active_profile, profiles)
       end in
     save_echoflow_config
       {| Echoflow.active := active_profile;
          prefect_configs := Some profiles;
          blocks := blocks current_config |})
    (save_echoflow_config
       {| Echoflow.active := active_profile;
          prefect_configs := Some profiles;
          blocks := Some [] |}).

Definition echoflow_create_prefect_profile (name : string)
    (api_key workspace_id account_id : option string) (set_active : bool)
  : W unit :=
  let! config := read_profiles in
  let config :=
    if set_active then
      {| toml_active := Some name; toml_profiles := toml_profiles config |}
    else config in
  let! profiles :=
    match toml_profiles config with
    | None => wraise KeyError
    | Some profiles => wpure profiles
    end in
  let profiles :=
    match api_key, workspace_id, account_id with
    | Some api_key, Some workspace_id, Some account_id =>
        <[name :=
            <["PREFECT_API_KEY" := api_key]>
              {["PREFECT_API_URL" :=
                  "https://api.prefect.cloud/api/accounts/" +:+ account_id
                    +:+ "/workspaces/" +:+ workspace_id]}]> profiles
    | _, _, _ => <[name := ∅]> profiles
    end in
  let config :=
    {| toml_active := toml_active config; toml_profiles := Some profiles |} in
  let! _ := write_profiles config in
  update_prefect_config api_key account_id workspace_id name true.

Definition load_profile (name : string) : W unit :=
  let! config := read_profiles in
  let! profiles :=
    match toml_profiles config with
    | None => wraise (AttributeError "'NoneType' object has no attribute 'get'")
    | Some profiles => wpure profiles
    end in
  match profiles !! name with
  | None =>
      wraise (ValueError "No such profile exists. Please try creating profile with this name")
  | Some _ =>
      let config :=
        {| toml_active := Some name; toml_profiles := toml_profiles config |} in
      write_profiles config
  end.

(** The loop of [get_active_profile] over [profiles.keys()]. *)
Fixpoint find_active (config : ProfilesToml) (profiles : gmap string Profile)
    (keys : list string) : result Profile :=
  match keys with
  | [] => raise (ValueError "No profile found.")
  | p :: keys' =>
      let* active :=
        match toml_active config with
        | None => raise KeyError
        | Some active => ret active
        end in
      if decide (p = active) then
        match profiles !! p with
        | None => raise KeyError
        | Some profile => ret profile
        end
      else find_active config profiles keys'
  end.

Definition get_active_profile : W Profile :=
  let! config := read_profiles in
  let! profiles :=
    match toml_profiles config with
    | None => wraise KeyError
    | Some profiles => wpure profiles
    end in
  wlift (find_active config profiles (map_to_list profiles).*1).

Definition update_base_config (name b_type : string) (active : bool)
    (options : gmap string string) : W unit :=
  let aws_base :=
    {| base_name := name; base_type := b_type; base_active := active;
       base_options := options |} in
  try_except_ValueError
    (let blocks : list BaseConfig := [] in
     let! current_config := load_echoflow_config in
     let blocks :=
       match Echoflow.blocks current_config with
       | Some current_blocks =>
           remove_while_iterating (λ b, bool_decide (base_name b = name))
             current_blocks
       | None => blocks
       end in
     let blocks := blocks ++ [aws_base] in
     save_echoflow_config
       {| Echoflow.active := default_active;
          prefect_configs := prefect_configs current_config;
          Echoflow.blocks := Some blocks |})
    (save_echoflow_config
       {| Echoflow.active := None;
          prefect_configs := Some [];
          Echoflow.blocks := Some [aws_base] |}).

Definition echoflow_config_AWS (aws_key aws_secret : string)
    (token : option string) (name : string) (region : option string)
    (options : gmap string string) (active : bool) : W unit :=
  let! _ := save_credentials name (AwsCredentials aws_key aws_secret token region) in
  update_base_config name "AwsCredentials" active options.

Definition echoflow_config_AZ_cosmos (name : string)
    (connection_string : option string) (options : gmap string string)
    (active : bool) : W unit :=
  match connection_string with
  | None => wraise (ValueError "Connection string cannot be empty.")
  | Some connection_string =>
      let! _ := save_credentials name (AzureCosmosDbCredentials connection_string) in
      update_base_config name "AzCredentials" active options
  end.

Definition echoflow_start
    (dataset_config pipeline_config logging_config : ConfigSource)
    (storage_options : StorageOptions) (options : gmap string OptionValue)
  : W unit :=
  let! storage_options :=
    match storage_options with
    | StorageBlock b => wlift (get_storage_options b)
    | StorageDict d => wpure d
    | StorageNone => wpure ∅
    end in
  let! _ :=
    try_except_ValueError
      (let! _ := load_echoflow_config in wpure ())
      (echoflow_create_prefect_profile "echoflow-local" None None None false) in
  let! connected := check_internet_connection in
  let! _ :=
    if negb connected then
      let! active_profile := get_active_profile in
      match active_profile !! "PREFECT_API_KEY" with
      | None => wraise KeyError
      | Some _ =>
          wraise (ValueError "Please connect to internet or consider switching to a local prefect environment. This can be done by calling load_profile('echoflow-local') method.")
      end
    else wpure () in
  let! storage_options :=
    match options !! "storage_options_override" with
    | None => wraise KeyError
    | Some override =>
        wpure (if is_not_None override && eq_False override then ∅
               else storage_options)
    end in
  call_pipeline_trigger dataset_config pipeline_config logging_config
    storage_options.
End echoflow.

End Echoflow.

(** * The vocabulary of the properties *)

(** [ceil (a / b)] on natural numbers. *)
Definition ceil_div (a b : nat) : nat := (a + (b - 1)) / b.

(** The records of a day, in the order of the input. *)
Definition on_day (d : Z) (raw_dicts : list Tasks.RawDict) : list Tasks.RawDict :=
  filter (λ r, Tasks.jday r = d) raw_dicts.

(** The [i]-th window of seven consecutive values of a list of days. *)
Definition window (days : list Z) (i : nat) : list Z :=
  take 7 (drop (i * 7) days).

(** The records of a transect, in the order of the input. *)
Definition with_transect (t : Z) (ed_list : list FileUtils.Ed) : list FileUtils.Ed :=
  filter (λ ed, FileUtils.transect ed = t) ed_list.

(** The distinct values of a list, each at the place of its first
    appearance. *)
Fixpoint first_appearance (ts : list Z) : list Z :=
  match ts with
  | [] => []
  | t :: ts' => t :: filter (λ t', t' ≠ t) (first_appearance ts')
  end.

(** The records grouped by transect: groups in the order of first appearance
    of their transect, records in input order inside a group. *)
Definition transect_groups (ed_list : list FileUtils.Ed) : list (list FileUtils.Ed) :=
  (λ t, with_transect t ed_list)
    <$> first_appearance (FileUtils.transect <$> ed_list).

(** An entry of the dictionary after the rest of the input has been read. *)
Definition extend (ed_list : list FileUtils.Ed) (kv : Z * list FileUtils.Ed)
  : Z * list FileUtils.Ed :=
  (kv.1, kv.2 ++ with_transect kv.1 ed_list).

(** The entry of a transect met for the first time. *)
Definition fresh (ed_list : list FileUtils.Ed) (t : Z)
  : Z * list FileUtils.Ed :=
  (t, with_transect t ed_list).

(** The stages of a recipe in declared order: processes in recipe order,
    stages in process order. *)
Definition declared_stages (recipe : InitFlow.Recipe) : list InitFlow.Stage :=
  concat (InitFlow.stages <$> InitFlow.pipeline recipe).

Section init_flow_vocabulary.
Import Py InitFlow.
Context `{Collaborators}.
Implicit Types (recipe : Recipe) (dataset : Dataset) (stage : Stage)
  (l : Locals) (tr : list event).

(** What the choice of the task runner can do, next to what it returns. *)
Inductive backend_step recipe (before : option Client)
    : list event → option (option Client) → Prop :=
  | backend_keep :
      backend_step recipe before [] (Some before)
  | backend_reuse client :
      before = Some client →
      backend_step recipe before [EvDaskTaskRunner client] (Some (Some client))
  | backend_reuse_raises client :
      before = Some client →
      backend_step recipe before [EvDaskTaskRunner client] None
  | backend_raises :
      before = None →
      backend_step recipe before [] None
  | backend_remote address client after :
      before = None →
      scheduler_address recipe = Some address →
      use_local_dask recipe = false →
      after = None ∨ after = Some (Some client) →
      backend_step recipe before
        [EvClient address client; EvDaskTaskRunner client] after
  | backend_cluster_only cluster :
      before = None →
      use_local_dask recipe = true →
      backend_step recipe before [EvLocalCluster cluster] None
  | backend_local cluster client after :
      before = None →
      use_local_dask recipe = true →
      after = None ∨ after = Some (Some client) →
      backend_step recipe before
        [EvLocalCluster cluster;
         EvClient (cluster_scheduler_address cluster) client;
         EvDaskTaskRunner client] after.

(** While the loops run: nothing has been closed, and the trace holds the
    creation of the client the flow has in hand and of nothing else. *)
Definition backend_inv recipe (current : option Client) tr : Prop :=
  closes tr = [] ∧
  match current with
  | None => clusters tr = [] ∧ clients tr = [] ∧ runners tr = []
  | Some client =>
      (∀ c, c ∈ runners tr → c = client) ∧
      ((∃ address,
          scheduler_address recipe = Some address ∧
          use_local_dask recipe = false ∧
          clusters tr = [] ∧ clients tr = [(address, client)])
       ∨ (∃ cluster,
            use_local_dask recipe = true ∧
            clusters tr = [cluster] ∧
            clients tr = [(cluster_scheduler_address cluster, client)]))
  end.

(** What holds of the trace of every run, however it ends. *)
Definition backend_ok recipe tr : Prop :=
  length (clusters tr) ≤ 1 ∧
  length (clients tr) ≤ 1 ∧
  length (closes tr) ≤ 1 ∧
  (clusters tr ≠ [] → use_local_dask recipe = true) ∧
  (∀ c, c ∈ runners tr → ∃ address, clients tr = [(address, c)]) ∧
  (∀ c, c ∈ closes tr →
     scheduler_address recipe = None ∧ use_local_dask recipe = true ∧
     ∃ cluster, clusters tr = [cluster] ∧
                clients tr = [(cluster_scheduler_address cluster, c)]).





(** The exception at the end of a run that called no stage. *)
Definition no_stage_error recipe : exn :=
  if bool_decide (scheduler_address recipe = None) && use_local_dask recipe
  then AttributeError "'NoneType' object has no attribute 'close'"
  else UnboundLocalError "output".

(** The collaborators do not raise on this recipe and dataset; and when the
    recipe has no scheduler address and asks for a local cluster, the options
    of its stages name no task runner of their own, so that the first stage
    creates the client that the end of the run closes. *)
Definition cooperative recipe dataset : Prop :=
  (∃ input, classified_files dataset = inr input) ∧
  (∀ stage, stage ∈ declared_stages recipe →
     ∃ function, dynamic_function_call (module stage) (name stage) = inr function) ∧
  (∀ stage options, stage ∈ declared_stages recipe →
     ∃ d, get_prefect_config_dict stage recipe options = inr (Some d) ∧
          (scheduler_address recipe = None → use_local_dask recipe = true →
           task_runner_is_None d = true)) ∧
  (∀ function d, ∃ function', with_options function d = inr function') ∧
  (∀ function stage input, stage ∈ declared_stages recipe →
     ∃ returned, call function dataset stage input = inr returned) ∧
  (∃ cluster, LocalCluster 3 = inr cluster) ∧
  (∀ address, ∃ client, new_Client address = inr client).

End init_flow_vocabulary.

Section init_flow_more_vocabulary.
Import Py InitFlow.
Context `{Collaborators}.
Implicit Types (recipe : Recipe) (dataset : Dataset) (stage : Stage)
  (l : Locals) (tr : list event).

(** Every call of the list returned. *)
Definition all_returned (cs : list (Stage * Data * result Data)) : Prop :=
  ∀ c, c ∈ cs → ∃ d, c.2 = inr d.

(** How a run can end.  It raises outside of a stage call, with every call
    made so far returned and nothing closed; or its last event is a stage
    call that raises, and the run raises the same exception; or it returns,
    every declared stage called and returned, and if it closed a client
    this was the last thing it did. *)
Inductive run_end recipe : result Data → list event → Prop :=
  | end_raises e tr :
      all_returned (calls tr) → closes tr = [] →
      run_end recipe (inl e) tr
  | end_stage_raises e tr stage given :
      all_returned (calls tr) → closes tr = [] →
      run_end recipe (inl e) (tr ++ [EvCall stage given (inl e)])
  | end_returns v tr :
      all_returned (calls tr) → closes tr = [] →
      (calls tr).*1.*1 = declared_stages recipe →
      run_end recipe (inr v) tr
  | end_closes_returns v tr client :
      all_returned (calls tr) → closes tr = [] →
      (calls tr).*1.*1 = declared_stages recipe →
      run_end recipe (inr v) (tr ++ [EvClose client]).

(** The options of every stage of the recipe come with a task runner of
    their own, and the collaborators do not raise. *)
Definition own_runners recipe dataset : Prop :=
  (∃ input, classified_files dataset = inr input) ∧
  (∀ stage, stage ∈ declared_stages recipe →
     ∃ function, dynamic_function_call (module stage) (name stage) = inr function) ∧
  (∀ stage options, stage ∈ declared_stages recipe →
     ∃ d, get_prefect_config_dict stage recipe options = inr (Some d) ∧
          task_runner_is_None d = false) ∧
  (∀ function d, ∃ function', with_options function d = inr function') ∧
  (∀ function stage input, stage ∈ declared_stages recipe →
     ∃ returned, call function dataset stage input = inr returned).

(** While the loops run: the stages seen so far were called and returned,
    nothing is closed, and a client in hand means that a stage returned. *)
Definition shape_inv (seen : list Stage) l tr : Prop :=
  all_returned (calls tr) ∧ closes tr = [] ∧
  (calls tr).*1.*1 = seen ∧
  (is_Some (client l) → is_Some (output l)).

(** A trace of stage calls and nothing else. *)
Definition only_calls tr : Prop :=
  clusters tr = [] ∧ clients tr = [] ∧ runners tr = [] ∧ closes tr = [].

(** What a trace holds when the recipe names a remote scheduler. *)
Definition remote_ok (address : string) tr : Prop :=
  clusters tr = [] ∧ closes tr = [] ∧
  (∀ a c, (a, c) ∈ clients tr → a = address) ∧
  length (calls tr) ≤ length (runners tr).
End init_flow_more_vocabulary.

Section echoflow_vocabulary.
Import Echoflow.
Context `{Environment}.

(** The profile names, the blocks and the active profile the block
    [echoflow-config] holds. *)
Definition registered_profiles (w : World) : list string :=
  default [] (echoflow_config w ≫= prefect_configs).

Definition registered_blocks (w : World) : list BaseConfig :=
  default [] (echoflow_config w ≫= blocks).

Definition active_profile_name (w : World) : option string :=
  echoflow_config w ≫= active.

(** The table [profiles] of the file [profiles.toml]. *)
Definition file_profiles (w : World) : option (gmap string Profile) :=
  profiles_file w ≫= toml_profiles.

(** The key [active] of the file [profiles.toml]. *)
Definition file_active (w : World) : option string :=
  profiles_file w ≫= toml_active.
End echoflow_vocabulary.

(** * Collaborators and inputs to run the code on *)

(** Stand-ins for the regular-expression and date libraries: they know the
    matches of two patterns on two file names and one date. *)
Definition date_pattern : string := "(?P<date>[0-9]{8})".
Definition date_time_pattern : string := "(?P<date>[0-9-]+)T(?P<time>[0-9:]+)".

Definition toy_search (pattern raw_file : string)
  : option (gmap string (option string)) :=
  if decide (pattern = date_pattern ∧ raw_file = "EK60-20170115.raw") then
    Some {[ "date" := Some "20170115" ]}
  else if decide (pattern = date_time_pattern
                  ∧ raw_file = "EK60_2017-01-15T03:00:00.raw") then
    Some (<[ "date" := Some "2017-01-15" ]> {[ "time" := Some "03:00:00" ]})
  else None.

Definition toy_libraries : FetchUtils.Libraries := {|
  FetchUtils.Pattern := string;
  FetchUtils.DateTime := Z * Z * Z;
  FetchUtils.re_compile pattern := inr pattern;
  FetchUtils.search := toy_search;
  FetchUtils.parser_parse s :=
    if decide (s = "2017-01-1503:00:00") then inr (2017, 1, 15)%Z
    else inl (Py.Propagated "dateutil.parser.ParserError");
  FetchUtils.isoformat _ := "2017-01-15T03:00:00";
  FetchUtils.tm_yday dt := dt.2;
  FetchUtils.dt_month dt := dt.1.2;
  FetchUtils.dt_year dt := dt.1.1
|}.

(** Stand-ins for the collaborators of [init_flow].  The data is the list of
    the file names followed by the names of the stages that ran; the options
    of a stage are its task runner, if it names one. *)
Definition toy_collaborators : InitFlow.Collaborators := {|
  InitFlow.Dataset := option string;
  InitFlow.RawFiles := list string;
  InitFlow.FileDict := string;
  InitFlow.StorageOptions := unit;
  InitFlow.Data := list string;
  InitFlow.Flow := string;
  InitFlow.Cluster := nat;
  InitFlow.Client := string;
  InitFlow.raw_json_path dataset := dataset;
  InitFlow.output_storage_options_dict _ := ();
  InitFlow.glob_all_files _ := inr ["a.raw"; "b.raw"];
  InitFlow.parse_raw_paths files _ := inr files;
  InitFlow.club_raw_files _ file_dicts _ _ := inr file_dicts;
  InitFlow.dynamic_function_call module name := inr (module +:+ "." +:+ name);
  InitFlow.get_prefect_config_dict stage _ _ :=
    inr (Some (match InitFlow.options stage !! "task_runner" with
               | Some runner => {[ "task_runner" := InitFlow.OtherValue runner ]}
               | None => ∅
               end));
  InitFlow.with_options function _ := inr function;
  InitFlow.call function _ _ input := inr (input ++ [function]);
  InitFlow.LocalCluster n_workers := inr n_workers;
  InitFlow.cluster_scheduler_address _ := "tcp://127.0.0.1:8786";
  InitFlow.new_Client address := inr address;
  InitFlow.client_scheduler_address client := client
|}.

Definition toy_stage (name : string) : InitFlow.Stage :=
  {| InitFlow.name := name; InitFlow.module := "echoflow.stages_v2.subflows";
     InitFlow.options := ∅ |}.

(** A recipe that asks for a local cluster and has no scheduler address. *)
Definition local_recipe : InitFlow.Recipe :=
  {| InitFlow.pipeline :=
       [ {| InitFlow.stages := [toy_stage "open_raw"; toy_stage "combine"] |};
         {| InitFlow.stages := [toy_stage "compute_Sv"] |} ];
     InitFlow.scheduler_address := None;
     InitFlow.use_local_dask := true |}.

(** A recipe that asks for a local cluster and also names a scheduler. *)
Definition local_recipe_with_address : InitFlow.Recipe :=
  {| InitFlow.pipeline := [ {| InitFlow.stages := [toy_stage "open_raw"] |} ];
     InitFlow.scheduler_address := Some "tcp://scheduler:8786";
     InitFlow.use_local_dask := true |}.

(** A recipe that asks for a local cluster, whose only stage names a task
    runner of its own. *)
Definition own_runner_recipe : InitFlow.Recipe :=
  {| InitFlow.pipeline :=
       [ {| InitFlow.stages :=
              [ {| InitFlow.name := "open_raw";
                   InitFlow.module := "echoflow.stages_v2.subflows";
                   InitFlow.options :=
                     {[ "task_runner" := "ConcurrentTaskRunner" ]} |} ] |} ];
     InitFlow.scheduler_address := None;
     InitFlow.use_local_dask := true |}.

(** A recipe whose only process has no stage. *)
Definition empty_recipe : InitFlow.Recipe :=
  {| InitFlow.pipeline := [ {| InitFlow.stages := [] |} ];
     InitFlow.scheduler_address := None;
     InitFlow.use_local_dask := false |}.

Definition raw_on (day : Z) (path : string) : Tasks.RawDict :=
  {| Tasks.instrument := "EK60"; Tasks.file_path := path; Tasks.month := 1;
     Tasks.year := 2017; Tasks.jday := day;
     Tasks.datetime := "2017-01-01T00:00:00" |}.

(** Files of the days 1 to 7, 9 and 10, out of order, two of them on day 1. *)
Definition nine_days : list Tasks.RawDict :=
  [raw_on 9 "i"; raw_on 1 "a"; raw_on 3 "c"; raw_on 2 "b"; raw_on 10 "j";
   raw_on 4 "d"; raw_on 5 "e"; raw_on 1 "a2"; raw_on 6 "f"; raw_on 7 "g"].

Definition echodata (transect : Z) (data : string) (error : bool)
  : FileUtils.Ed :=
  {| FileUtils.transect := transect; FileUtils.data := data;
     FileUtils.error := error |}.

Definition two_transects : list FileUtils.Ed :=
  [echodata 1 "a" false; echodata 1 "b" false; echodata 2 "c" false].

Definition one_failed : list FileUtils.Ed :=
  [echodata 1 "a" false; echodata 1 "b" true].

(** The collaborators of [toy_collaborators], with a stage [combine] that
    raises. *)
Definition failing_collaborators : InitFlow.Collaborators := {|
  InitFlow.Dataset := option string;
  InitFlow.RawFiles := list string;
  InitFlow.FileDict := string;
  InitFlow.StorageOptions := unit;
  InitFlow.Data := list string;
  InitFlow.Flow := string;
  InitFlow.Cluster := nat;
  InitFlow.Client := string;
  InitFlow.raw_json_path dataset := dataset;
  InitFlow.output_storage_options_dict _ := ();
  InitFlow.glob_all_files _ := inr ["a.raw"; "b.raw"];
  InitFlow.parse_raw_paths files _ := inr files;
  InitFlow.club_raw_files _ file_dicts _ _ := inr file_dicts;
  InitFlow.dynamic_function_call module name := inr (module +:+ "." +:+ name);
  InitFlow.get_prefect_config_dict stage _ _ :=
    inr (Some (match InitFlow.options stage !! "task_runner" with
               | Some runner => {[ "task_runner" := InitFlow.OtherValue runner ]}
               | None => ∅
               end));
  InitFlow.with_options function _ := inr function;
  InitFlow.call function _ _ input :=
    if decide (function = "echoflow.stages_v2.subflows.combine") then
      inl (Py.Propagated "RuntimeError")
    else inr (input ++ [function]);
  InitFlow.LocalCluster n_workers := inr n_workers;
  InitFlow.cluster_scheduler_address _ := "tcp://127.0.0.1:8786";
  InitFlow.new_Client address := inr address;
  InitFlow.client_scheduler_address client := client
|}.

(** A recipe that asks for no backend. *)
Definition sequential_recipe : InitFlow.Recipe :=
  {| InitFlow.pipeline :=
       [ {| InitFlow.stages := [toy_stage "open_raw"; toy_stage "combine"] |};
         {| InitFlow.stages := [toy_stage "compute_Sv"] |} ];
     InitFlow.scheduler_address := None;
     InitFlow.use_local_dask := false |}.

(** A recipe that names a scheduler and asks for no local cluster. *)
Definition remote_recipe : InitFlow.Recipe :=
  {| InitFlow.pipeline :=
       [ {| InitFlow.stages := [toy_stage "open_raw"; toy_stage "combine"] |} ];
     InitFlow.scheduler_address := Some "tcp://scheduler:8786";
     InitFlow.use_local_dask := false |}.

(** Stand-ins for what [echoflow_start] calls. *)
Definition toy_environment : Echoflow.Environment := {|
  Echoflow.ConfigSource := string;
  Echoflow.Block := string;
  Echoflow.get_storage_options block := inr {[ "block" := block ]};
  Echoflow.pipeline_trigger _ _ _ _ := inr ();
  Echoflow.default_active := None
|}.

Definition cloud_profile : Echoflow.Profile :=
  <[ "PREFECT_API_KEY" := "pnu_key" ]>
    {[ "PREFECT_API_URL" :=
         "https://api.prefect.cloud/api/accounts/acc/workspaces/ws" ]}.

Definition toy_profiles : gmap string Echoflow.Profile :=
  <[ "cloud" := cloud_profile ]> {[ "echoflow-local" := ∅ ]}.

Definition toy_toml : Echoflow.ProfilesToml :=
  {| Echoflow.toml_active := Some "cloud";
     Echoflow.toml_profiles := Some toy_profiles |}.

(** A machine without network, with a cloud profile that is active, a local
    profile, and one registered block of credentials. *)
Definition offline_world : Echoflow.World (H := toy_environment) :=
  {| Echoflow.profiles_file := Some toy_toml;
     Echoflow.echoflow_config :=
       Some {| Echoflow.active := Some "cloud";
               Echoflow.prefect_configs := Some ["cloud"; "echoflow-local"];
               Echoflow.blocks :=
                 Some [ {| Echoflow.base_name := "echoflow-aws-credentials";
                           Echoflow.base_type := "AwsCredentials";
                           Echoflow.base_active := false;
                           Echoflow.base_options := ∅ |} ] |};
     Echoflow.prefect_profiles := ∅;
     Echoflow.credentials := ∅;
     Echoflow.online := false;
     Echoflow.triggered := [] |}.

(** * Properties *)

(** ** Python built-ins *)

Section py_facts.
Import Py.

Lemma ceil_div_0 b : 0 < b → ceil_div 0 b = 0.
Proof. intros Hb. unfold ceil_div. apply Nat.div_small. lia. Qed.

Lemma ceil_div_step a b : 0 < b → 0 < a → ceil_div a b = S (ceil_div (a - b) b).
Proof.
  intros Hb Ha. unfold ceil_div.
  destruct (decide (b ≤ a)) as [Hle|Hlt].
  - replace (a + (b - 1)) with ((a - b + (b - 1)) + 1 * b) by lia.
    rewrite Nat.div_add by lia. lia.
  - replace (a - b) with 0 by lia.
    rewrite (Nat.div_small (0 + (b - 1))) by lia.
    symmetry. apply (Nat.div_unique _ _ 1 (a - 1)); lia.
Qed.

(** [range] enumerates the multiples of the step below the bound. *)
Lemma range_from_spec fuel i stop step :
  0 < step → stop - i ≤ fuel →
  range_from fuel i stop step
  = (λ k, i + k * step) <$> seq 0 (ceil_div (stop - i) step).
Proof.
  intros Hstep. revert i.
  induction fuel as [|fuel IH]; intros i Hfuel; simpl.
  - replace (stop - i) with 0 by lia. by rewrite ceil_div_0.
  - case_decide as Hi.
    + rewrite (ceil_div_step (stop - i)) by lia. simpl.
      rewrite IH by lia. f_equal; [lia|].
      replace (stop - i - step) with (stop - (i + step)) by lia.
      rewrite <- fmap_S_seq, <- list_fmap_compose.
      apply list_fmap_ext. intros _ k _. simpl. lia.
    + replace (stop - i) with 0 by lia. by rewrite ceil_div_0.
Qed.

Lemma range_spec stop step :
  0 < step →
  range 0 stop step = (λ k, k * step) <$> seq 0 (ceil_div stop step).
Proof.
  intros Hstep. unfold range. rewrite range_from_spec by lia.
  by rewrite Nat.sub_0_r.
Qed.

(** Cutting a list into consecutive windows loses nothing. *)
Lemma concat_windows {A} (w m : nat) (l : list A) :
  0 < w → length l ≤ m * w →
  concat ((λ k, take w (drop (k * w) l)) <$> seq 0 m) = l.
Proof.
  intros Hw. revert l. induction m as [|m IH]; intros l Hl.
  - destruct l; simpl in *; [done|lia].
  - simpl. rewrite <- fmap_S_seq, <- list_fmap_compose.
    transitivity (take w l ++ drop w l); [|apply take_drop].
    f_equal.
    etrans; [|apply (IH (drop w l)); rewrite length_drop; lia].
    f_equal. apply list_fmap_ext. intros _ k _. simpl.
    by rewrite drop_drop.
Qed.

Lemma filter_all {A} (P : A → Prop) `{!∀ x, Decision (P x)} (l : list A) :
  (∀ x, x ∈ l → P x) → filter P l = l.
Proof.
  induction l as [|x l IH]; intros HP; [done|].
  rewrite filter_cons_True by (apply HP; left).
  f_equal. apply IH. intros y Hy. apply HP. by right.
Qed.

Lemma StronglySorted_lookup_lt {A} (R : relation A) (l : list A) i j x y :
  StronglySorted R l → i < j → l !! i = Some x → l !! j = Some y → R x y.
Proof.
  intros Hl. revert i j. induction Hl as [|a l Hl IH Ha]; intros i j Hij Hi Hj.
  - done.
  - destruct j as [|j]; [lia|]. simpl in Hj. destruct i as [|i]; simpl in Hi.
    + injection Hi as ->. rewrite Forall_forall in Ha.
      apply Ha. by eapply list_elem_of_lookup_2.
    + apply (IH i j); [lia|done..].
Qed.

Lemma StronglySorted_le_NoDup_lt (l : list Z) :
  StronglySorted Z.le l → NoDup l → StronglySorted Z.lt l.
Proof.
  induction 1 as [|a l Hl IH Ha]; intros Hnd; constructor.
  - apply IH. by apply NoDup_cons in Hnd as [_ ?].
  - apply NoDup_cons in Hnd as [Hnotin _].
    rewrite Forall_forall in Ha |- *. intros x Hx.
    specialize (Ha x Hx). assert (a ≠ x) by (by intros ->). lia.
Qed.

(** [sorted] of a set lists its elements once each, in ascending order. *)
Lemma sorted_StronglySorted (s : gset Z) : StronglySorted Z.lt (sorted s).
Proof.
  unfold sorted. apply StronglySorted_le_NoDup_lt.
  - apply (StronglySorted_merge_sort Z.le).
  - rewrite merge_sort_Permutation. apply NoDup_elements.
Qed.

Lemma elem_of_sorted (s : gset Z) (x : Z) : x ∈ sorted s ↔ x ∈ s.
Proof. unfold sorted. by rewrite merge_sort_Permutation, elem_of_elements. Qed.

Lemma length_sorted (s : gset Z) : length (sorted s) = size s.
Proof. unfold sorted. by rewrite merge_sort_Permutation. Qed.

Lemma StronglySorted_lt_NoDup (l : list Z) : StronglySorted Z.lt l → NoDup l.
Proof.
  induction 1 as [|a l Hl IH Ha]; constructor; [|done].
  rewrite Forall_forall in Ha. intros Hin. specialize (Ha a Hin). lia.
Qed.
End py_facts.

(** ** convert/tasks.py: the weekly chunker *)

Section tasks_facts.
Import Py Tasks.
Implicit Types (raw_dicts : list RawDict) (d : Z) (r : RawDict).

Lemma mapM_fmap_Some {A B} (f : A → option B) (g : A → B) (l : list A) :
  (∀ x, x ∈ l → f x = Some (g x)) → mapM f l = Some (g <$> l).
Proof.
  intros Hf. apply mapM_Some. induction l as [|x l IH]; simpl; constructor.
  - apply Hf. left.
  - apply IH. intros y Hy. apply Hf. by right.
Qed.

Lemma elem_of_concat {A} (x : A) (ls : list (list A)) :
  x ∈ concat ls ↔ ∃ l, l ∈ ls ∧ x ∈ l.
Proof.
  induction ls as [|l ls IH]; simpl.
  - split; [by intros ?%elem_of_nil|by intros (? & ?%elem_of_nil & _)].
  - rewrite elem_of_app, IH. split.
    + intros [Hx|(l' & Hl' & Hx)]; [exists l|exists l']; split; try done;
        [by left|by right].
    + intros (l' & [->|Hl']%elem_of_cons & Hx); [by left|right; eauto].
Qed.

Lemma concat_fmap_concat {A B} (f : A → list B) (ls : list (list A)) :
  concat ((λ l, concat (f <$> l)) <$> ls) = concat (f <$> concat ls).
Proof.
  induction ls as [|l ls IH]; simpl; [done|].
  rewrite fmap_app, concat_app. f_equal. apply IH.
Qed.

Lemma elem_of_all_jdays raw_dicts d :
  d ∈ all_jdays raw_dicts ↔ ∃ r, r ∈ raw_dicts ∧ jday r = d.
Proof.
  unfold all_jdays. rewrite elem_of_sorted, elem_of_list_to_set, list_elem_of_fmap.
  split; intros (r & ? & ?); exists r; by split.
Qed.

Lemma all_jdays_sorted raw_dicts : StronglySorted Z.lt (all_jdays raw_dicts).
Proof. apply sorted_StronglySorted. Qed.

Lemma split_days_windows raw_dicts :
  split_days raw_dicts
  = window (all_jdays raw_dicts)
      <$> seq 0 (ceil_div (length (all_jdays raw_dicts)) 7).
Proof.
  unfold split_days, n. rewrite range_spec by lia.
  rewrite <- list_fmap_compose. apply list_fmap_ext. intros _ k _. simpl.
  unfold slice, window. f_equal. lia.
Qed.

Lemma concat_split_days raw_dicts :
  concat (split_days raw_dicts) = all_jdays raw_dicts.
Proof.
  rewrite split_days_windows. apply concat_windows; [lia|].
  unfold ceil_div. change (7 - 1) with 6.
  pose proof (Nat.div_mod_eq (length (all_jdays raw_dicts) + 6) 7).
  pose proof (Nat.mod_upper_bound (length (all_jdays raw_dicts) + 6) 7).
  lia.
Qed.

Lemma elem_of_window days i d :
  d ∈ window days i ↔ ∃ a, days !! a = Some d ∧ i * 7 ≤ a < i * 7 + 7.
Proof.
  unfold window. rewrite elem_of_take. split.
  - intros (b & Hb & Hlt). rewrite lookup_drop in Hb.
    exists (i * 7 + b). split; [done|lia].
  - intros (a & Ha & Hlo & Hhi). exists (a - i * 7).
    rewrite lookup_drop. replace (i * 7 + (a - i * 7)) with a by lia.
    split; [done|lia].
Qed.

Lemma window_subseteq days i d : d ∈ window days i → d ∈ days.
Proof.
  rewrite elem_of_window. intros (a & Ha & _). by eapply list_elem_of_lookup_2.
Qed.

(** The dictionary of the days: every day of the input is a key, and its
    value is the records of that day in input order. *)
Lemma day_dict_step_lookup (m : gmap Z (list RawDict)) r d :
  day_dict_step m r !! d
  = if decide (jday r = d) then Some (default [] (m !! d) ++ [r]) else m !! d.
Proof.
  unfold day_dict_step. case_decide as Hd.
  - subst d. rewrite lookup_alter_eq.
    destruct (m !! jday r) as [files|] eqn:Hm.
    + by rewrite Hm.
    + by rewrite lookup_insert_eq.
  - rewrite lookup_alter_ne by done.
    destruct (m !! jday r); [done|]. by rewrite lookup_insert_ne.
Qed.

Lemma day_dict_fold_lookup raw_dicts (m : gmap Z (list RawDict)) d :
  foldl day_dict_step m raw_dicts !! d
  = match m !! d with
    | Some files => Some (files ++ on_day d raw_dicts)
    | None => match on_day d raw_dicts with
              | [] => None
              | files => Some files
              end
    end.
Proof.
  revert m. induction raw_dicts as [|r raw_dicts IH]; intros m; simpl.
  - unfold on_day. rewrite filter_nil. destruct (m !! d); [|done].
    by rewrite app_nil_r.
  - rewrite IH, day_dict_step_lookup. unfold on_day.
    rewrite filter_cons. case_decide as Hd; [|done].
    destruct (m !! d) as [files|]; simpl; [|done].
    by rewrite <- app_assoc.
Qed.

Lemma day_dict_lookup raw_dicts d :
  d ∈ all_jdays raw_dicts → day_dict raw_dicts !! d = Some (on_day d raw_dicts).
Proof.
  intros (r & Hr & Hd)%elem_of_all_jdays.
  unfold day_dict. rewrite day_dict_fold_lookup, lookup_empty.
  assert (r ∈ on_day d raw_dicts) as Hin by (by apply list_elem_of_filter).
  destruct (on_day d raw_dicts); [|done]. by apply elem_of_nil in Hin.
Qed.

(** What [parse_raw_json] computes, in closed form: no subscript fails. *)
Lemma parse_raw_json_eq raw_dicts :
  parse_raw_json raw_dicts
  = Some ((λ week, concat ((λ d, on_day d raw_dicts) <$> week))
            <$> split_days raw_dicts).
Proof.
  unfold parse_raw_json. apply mapM_fmap_Some. intros week Hweek.
  rewrite (mapM_fmap_Some _ (λ d, on_day d raw_dicts)); [done|].
  intros d Hd. apply day_dict_lookup.
  rewrite <- concat_split_days. apply elem_of_concat. eauto.
Qed.

Lemma filter_cons_day d ds raw_dicts :
  d ∉ ds →
  filter (λ r, jday r ∈ d :: ds) raw_dicts
  ≡ₚ on_day d raw_dicts ++ filter (λ r, jday r ∈ ds) raw_dicts.
Proof.
  intros Hd. unfold on_day.
  induction raw_dicts as [|r raw_dicts IH]; [done|].
  rewrite !filter_cons.
  destruct (decide (jday r = d)) as [->|Hne].
  - rewrite decide_True by left. rewrite decide_False by done.
    simpl. by rewrite IH.
  - destruct (decide (jday r ∈ ds)) as [Hin|Hnotin].
    + rewrite decide_True by (by right). rewrite IH. apply Permutation_middle.
    + rewrite decide_False; [done|]. by intros [?|?]%elem_of_cons.
Qed.

Lemma concat_on_days ds raw_dicts :
  NoDup ds →
  concat ((λ d, on_day d raw_dicts) <$> ds)
  ≡ₚ filter (λ r, jday r ∈ ds) raw_dicts.
Proof.
  induction 1 as [|d ds Hd Hds IH]; simpl.
  - induction raw_dicts as [|r raw_dicts IHr]; [done|].
    rewrite filter_cons_False; [done|]. apply not_elem_of_nil.
  - by rewrite filter_cons_day, IH.
Qed.

Lemma window_NoDup days i : NoDup days → NoDup (window days i).
Proof.
  intros Hnd. unfold window.
  apply (sublist_NoDup _ (drop (i * 7) days)); [|apply sublist_take].
  by apply (sublist_NoDup _ days); [|apply sublist_drop].
Qed.
End tasks_facts.

(** C1.  The weekly chunker.  For every list of raw-file records,
    [parse_raw_json] returns (no subscript fails), and what it returns is
    determined by [days], the distinct [jday] values of the input in
    ascending order:
    - there are [ceil (distinct / 7)] batches, [distinct] being the number of
      distinct [jday] values;
    - the [i]-th batch belongs to the [i]-th window of seven consecutive
      values of [days] (the windows are not empty, only the last one can be
      shorter than seven, and together they are [days]); it is the records of
      the days of its window, day after day, and so it holds exactly the
      input records whose [jday] lies in the window;
    - the batches together are a rearrangement of the input;
    - the days of an earlier batch are before the days of a later batch, so
      two batches share no record, and every input record is in exactly one
      batch. *)
Theorem parse_raw_json_weekly_batches (raw_dicts : list Tasks.RawDict) :
  let days := Tasks.all_jdays raw_dicts in
  let distinct := size (list_to_set (Tasks.jday <$> raw_dicts) : gset Z) in
  StronglySorted Z.lt days ∧
  (∀ d, d ∈ days ↔ ∃ r, r ∈ raw_dicts ∧ Tasks.jday r = d) ∧
  length days = distinct ∧
  ∃ all_weeks,
    Tasks.parse_raw_json raw_dicts = Some all_weeks ∧
    length all_weeks = ceil_div distinct 7 ∧
    concat (window days <$> seq 0 (length all_weeks)) = days ∧
    (∀ i week, all_weeks !! i = Some week →
       0 < length (window days i) ≤ 7 ∧
       (S i < length all_weeks → length (window days i) = 7) ∧
       week = concat ((λ d, on_day d raw_dicts) <$> window days i) ∧
       week ≡ₚ filter (λ r, Tasks.jday r ∈ window days i) raw_dicts) ∧
    concat all_weeks ≡ₚ raw_dicts ∧
    (∀ i j wi wj r r',
       i < j → all_weeks !! i = Some wi → all_weeks !! j = Some wj →
       r ∈ wi → r' ∈ wj → (Tasks.jday r < Tasks.jday r')%Z) ∧
    (∀ i j wi wj r,
       i ≠ j → all_weeks !! i = Some wi → all_weeks !! j = Some wj →
       r ∈ wi → r ∉ wj) ∧
    (∀ r, r ∈ raw_dicts →
       ∃ i week, all_weeks !! i = Some week ∧ r ∈ week ∧
         ∀ j week', all_weeks !! j = Some week' → r ∈ week' → j = i).
Proof.
  intros days distinct.
  pose proof (all_jdays_sorted raw_dicts) as Hsorted. fold days in Hsorted.
  assert (NoDup days) as Hnd by (by apply StronglySorted_lt_NoDup).
  assert (length days = distinct) as Hlen by apply length_sorted.
  set (all_weeks := (λ week, concat ((λ d, on_day d raw_dicts) <$> week))
                      <$> Tasks.split_days raw_dicts).
  assert (length all_weeks = ceil_div distinct 7) as Hweeks.
  { unfold all_weeks. rewrite length_fmap, split_days_windows.
    rewrite length_fmap, length_seq. by fold days; rewrite Hlen. }
  assert (∀ i week, all_weeks !! i = Some week →
            i < ceil_div distinct 7 ∧
            week = concat ((λ d, on_day d raw_dicts) <$> window days i))
    as Hweek.
  { intros i week Hi. split.
    - rewrite <- Hweeks. by eapply lookup_lt_Some.
    - unfold all_weeks in Hi. rewrite split_days_windows in Hi.
      rewrite <- list_fmap_compose, list_lookup_fmap in Hi.
      destruct (seq _ _ !! i) as [k|] eqn:Hk; [|done].
      apply lookup_seq in Hk as [-> _]. simpl in Hi. by injection Hi as <-. }
  assert (∀ i week r, all_weeks !! i = Some week → r ∈ week →
            r ∈ raw_dicts ∧ Tasks.jday r ∈ window days i) as Hmem.
  { intros i week r [_ ->]%Hweek Hr.
    rewrite concat_on_days in Hr by (by apply window_NoDup).
    apply list_elem_of_filter in Hr as [? ?]. done. }
  assert (∀ i j wi wj r r',
            i < j → all_weeks !! i = Some wi → all_weeks !! j = Some wj →
            r ∈ wi → r' ∈ wj → (Tasks.jday r < Tasks.jday r')%Z) as Horder.
  { intros i j wi wj r r' Hij Hi Hj Hr Hr'.
    destruct (Hmem _ _ _ Hi Hr) as [_ (a & Ha & ? & ?)%elem_of_window].
    destruct (Hmem _ _ _ Hj Hr') as [_ (b & Hb & ? & ?)%elem_of_window].
    apply (StronglySorted_lookup_lt Z.lt days a b); [done|lia|done..]. }
  assert (∀ i j wi wj r,
            i ≠ j → all_weeks !! i = Some wi → all_weeks !! j = Some wj →
            r ∈ wi → r ∉ wj) as Hdisj.
  { intros i j wi wj r Hij Hi Hj Hr Hr'.
    destruct (decide (i < j)).
    - pose proof (Horder i j wi wj r r ltac:(done) Hi Hj Hr Hr'). lia.
    - pose proof (Horder j i wj wi r r ltac:(lia) Hj Hi Hr' Hr). lia. }
  assert (concat all_weeks ≡ₚ raw_dicts) as Hperm.
  { unfold all_weeks. rewrite concat_fmap_concat, concat_split_days.
    rewrite concat_on_days by done. fold days.
    rewrite filter_all; [done|].
    intros r Hr. apply elem_of_all_jdays. by exists r. }
  split_and!; try done.
  { intros d. apply elem_of_all_jdays. }
  exists all_weeks. split_and!; try done.
  - apply parse_raw_json_eq.
  - rewrite Hweeks, <- Hlen.
    pose proof (concat_split_days raw_dicts) as Hc.
    by rewrite split_days_windows in Hc.
  - intros i week Hi. destruct (Hweek _ _ Hi) as [Hlt ->].
    assert (length (window days i) = 7 `min` (length days - i * 7)) as Hw.
    { unfold window. by rewrite length_take, length_drop. }
    rewrite Hw, Hweeks, Hlen. unfold ceil_div in *. change (7 - 1) with 6 in *.
    pose proof (Nat.div_mod_eq (distinct + 6) 7).
    pose proof (Nat.mod_upper_bound (distinct + 6) 7).
    split_and!; [lia|lia|lia|done|].
    by apply concat_on_days, window_NoDup.
  - intros r Hr. rewrite <- Hperm in Hr.
    apply elem_of_concat in Hr as (week & Hweek' & Hr).
    apply list_elem_of_lookup in Hweek' as [i Hi].
    exists i, week. split_and!; [done..|].
    intros j week' Hj Hr'. destruct (decide (j = i)) as [|Hne]; [done|].
    by destruct (Hdisj j i week' week r Hne Hj Hi Hr').
Qed.

(** ** stages/utils/file_utils.py: the result aggregator *)

Section first_appearance_facts.
Implicit Types (t : Z) (ts : list Z).

Lemma elem_of_first_appearance t ts : t ∈ first_appearance ts ↔ t ∈ ts.
Proof.
  induction ts as [|t' ts IH]; simpl; [done|].
  rewrite !elem_of_cons, list_elem_of_filter, IH.
  split.
  - intros [?|[_ ?]]; [by left|by right].
  - intros [?|?]; [by left|].
    destruct (decide (t = t')); [by left|by right].
Qed.

Lemma NoDup_first_appearance ts : NoDup (first_appearance ts).
Proof.
  induction ts as [|t ts IH]; simpl; constructor.
  - rewrite list_elem_of_filter. by intros [? _].
  - by apply NoDup_filter.
Qed.

Lemma first_appearance_filter (P : Z → Prop) `{!∀ t, Decision (P t)} ts :
  first_appearance (filter P ts) = filter P (first_appearance ts).
Proof.
  induction ts as [|t ts IH]; simpl; [done|].
  rewrite !filter_cons. case_decide as HP; simpl.
  - rewrite IH. f_equal. rewrite !list_filter_filter.
    apply list_filter_iff. intros t'. simpl. tauto.
  - rewrite IH, list_filter_filter. apply list_filter_iff.
    intros t'. simpl. split; [|tauto]. intros Ht'. split; [done|by intros ->].
Qed.

(** Scanning from the left, a value joins the result when it has not been
    seen before. *)
Lemma first_appearance_snoc ts t :
  first_appearance (ts ++ [t])
  = if decide (t ∈ ts) then first_appearance ts else first_appearance ts ++ [t].
Proof.
  induction ts as [|t' ts IH].
  - by destruct (decide (t ∈ [])) as [?%elem_of_nil|].
  - simpl. rewrite IH. destruct (decide (t ∈ ts)) as [Hin|Hnotin].
    + destruct (decide (t ∈ t' :: ts)) as [_|Hn]; [done|].
      destruct Hn. by right.
    + rewrite filter_app. destruct (decide (t = t')) as [->|Hne].
      * destruct (decide (t' ∈ t' :: ts)) as [_|Hn]; [|destruct Hn; left].
        rewrite filter_cons_False by tauto.
        by rewrite filter_nil, app_nil_r.
      * destruct (decide (t ∈ t' :: ts)) as [[?|?]%elem_of_cons|_]; [done..|].
        rewrite filter_cons_True by done.
        by rewrite filter_nil.
Qed.

Lemma length_first_appearance ts :
  length (first_appearance ts) = size (list_to_set ts : gset Z).
Proof.
  rewrite <- (length_sorted (list_to_set ts)).
  apply Permutation_length, NoDup_Permutation.
  - apply NoDup_first_appearance.
  - apply StronglySorted_lt_NoDup, sorted_StronglySorted.
  - intros t. by rewrite elem_of_first_appearance, elem_of_sorted, elem_of_list_to_set.
Qed.

Lemma first_appearance_block (block rest : list Z) t :
  block ≠ [] → (∀ t', t' ∈ block → t' = t) → t ∉ rest →
  first_appearance (block ++ rest) = t :: first_appearance rest.
Proof.
  intros Hne Hblock Hrest.
  induction block as [|t' block IH]; [done|]. simpl.
  rewrite (Hblock t') by left. f_equal.
  destruct block as [|t'' block].
  - simpl. apply filter_all. intros x Hx. apply (proj1 (elem_of_first_appearance _ _)) in Hx.
    intros ->. by apply Hrest.
  - rewrite IH; [|done|intros x Hx; apply Hblock; by right].
    rewrite filter_cons_False by tauto.
    apply filter_all. intros x Hx. apply (proj1 (elem_of_first_appearance _ _)) in Hx.
    intros ->. by apply Hrest.
Qed.
End first_appearance_facts.

Section odict_facts.
Import Py.
Context {K V : Type} `{EqDecision K}.
Implicit Types (k : K) (v : V) (d : odict K V).

Lemma fmap_ext_in {A B} (f g : A → B) (l : list A) :
  (∀ x, x ∈ l → f x = g x) → f <$> l = g <$> l.
Proof.
  intros Hfg. apply list_fmap_ext. intros i x Hx.
  apply Hfg. by eapply list_elem_of_lookup_2.
Qed.

Lemma odict_in_true k d : odict_in k d = true ↔ k ∈ d.*1.
Proof. unfold odict_in. apply bool_decide_eq_true. Qed.

Lemma odict_in_false k d : odict_in k d = false ↔ k ∉ d.*1.
Proof. unfold odict_in. apply bool_decide_eq_false. Qed.

Lemma odict_get_is_inr k d : k ∈ d.*1 → ∃ v, odict_get k d = inr v.
Proof.
  induction d as [|[k' v'] d IH]; simpl.
  - by intros ?%elem_of_nil.
  - intros Hk. case_decide; [by eexists|].
    apply IH. by apply elem_of_cons in Hk as [?|?].
Qed.

Lemma odict_get_elem_of k v d :
  NoDup d.*1 → (k, v) ∈ d → odict_get k d = inr v.
Proof.
  induction d as [|[k' v'] d IH]; simpl.
  - by intros _ ?%elem_of_nil.
  - intros [Hk' Hnd]%NoDup_cons [Heq|Hin]%elem_of_cons.
    + injection Heq as -> ->. by rewrite decide_True.
    + rewrite decide_False; [by apply IH|].
      intros ->. apply Hk'. by apply (list_elem_of_fmap_2 fst) in Hin.
Qed.

Lemma odict_set_new k v d : k ∉ d.*1 → odict_set k v d = d ++ [(k, v)].
Proof.
  induction d as [|[k' v'] d IH]; simpl; [done|].
  intros Hk. rewrite decide_False by (intros ->; apply Hk; left).
  rewrite IH; [done|]. intros ?. apply Hk. by right.
Qed.

(** [d[k] = f(d[k])] for a key of [d] changes the value of [k] where it is. *)
Lemma odict_update k (f : V → V) d :
  NoDup d.*1 → k ∈ d.*1 →
  ∃ v, odict_get k d = inr v ∧
       odict_set k (f v) d
       = (λ kv, (kv.1, if decide (kv.1 = k) then f kv.2 else kv.2)) <$> d.
Proof.
  induction d as [|[k' v'] d IH]; simpl.
  - by intros _ ?%elem_of_nil.
  - intros [Hk' Hnd]%NoDup_cons Hk. case_decide as Heq.
    + subst k'. exists v'. split; [done|]. f_equal.
      rewrite <- (list_fmap_id d) at 1. apply fmap_ext_in.
      intros [k'' v''] Hin. simpl. rewrite decide_False; [done|].
      intros ->. apply Hk'. by apply (list_elem_of_fmap_2 fst) in Hin.
    + apply elem_of_cons in Hk as [?|Hk]; [done|].
      destruct (IH Hnd Hk) as (v & Hget & Hset).
      exists v. split; [done|]. by rewrite Hset.
Qed.
End odict_facts.

Section file_utils_facts.
Import Py FileUtils.
Implicit Types (ed : Ed) (ed_list : list Ed) (d : odict Z (list Ed)).

Lemma with_transect_cons t ed ed_list :
  with_transect t (ed :: ed_list)
  = if decide (transect ed = t) then ed :: with_transect t ed_list
    else with_transect t ed_list.
Proof. unfold with_transect. by rewrite filter_cons. Qed.

Lemma collect_spec name ed_list d :
  (∀ ed, ed ∈ ed_list → error ed = false) → NoDup d.*1 →
  collect name ed_list d
  = inr ((extend ed_list <$> d)
         ++ (fresh ed_list
               <$> first_appearance
                     (filter (λ t, t ∉ d.*1) (transect <$> ed_list)))).
Proof.
  revert d. induction ed_list as [|ed ed_list IH]; intros d Herr Hnd.
  - simpl. rewrite app_nil_r. unfold ret. f_equal.
    rewrite <- (list_fmap_id d) at 1. apply fmap_ext_in.
    intros [k g] _. unfold extend. simpl. by rewrite app_nil_r.
  - simpl. rewrite (Herr ed) by left.
    assert (∀ ed', ed' ∈ ed_list → error ed' = false) as Herr'
      by (intros ed' Hed'; apply Herr; by right).
    destruct (odict_in (transect ed) d) eqn:Hin.
    + apply odict_in_true in Hin.
      destruct (odict_update (transect ed) (λ g, g ++ [ed]) d Hnd Hin)
        as (g & Hget & Hset).
      rewrite Hget. simpl. rewrite Hset.
      set (d' := _ <$> d).
      assert (d'.*1 = d.*1) as Hkeys.
      { unfold d'. rewrite <- list_fmap_compose. by apply fmap_ext_in. }
      rewrite IH by (by rewrite ?Hkeys). rewrite Hkeys.
      rewrite filter_cons_False by (by intros Hn; apply Hn). f_equal. f_equal.
      * unfold d'. rewrite <- list_fmap_compose. apply fmap_ext_in.
        intros [k x] _. unfold extend. simpl. f_equal.
        rewrite with_transect_cons.
        destruct (decide (k = transect ed)) as [->|Hne].
        -- rewrite decide_True by done. by rewrite <- app_assoc.
        -- by rewrite decide_False.
      * apply fmap_ext_in. intros t Ht.
        apply (proj1 (elem_of_first_appearance _ _)) in Ht.
        apply list_elem_of_filter in Ht as [Ht _].
        unfold fresh. f_equal. rewrite with_transect_cons.
        rewrite decide_False; [done|]. by intros <-.
    + apply odict_in_false in Hin. simpl.
      rewrite odict_set_new by done.
      rewrite IH; [|done|].
      2:{ rewrite fmap_app. simpl. apply NoDup_app. split_and!; [done| |].
          - intros t Ht ->%list_elem_of_singleton. done.
          - apply NoDup_singleton. }
      rewrite filter_cons_True by done. simpl.
      rewrite fmap_app, <- app_assoc. f_equal. f_equal.
      * apply fmap_ext_in. intros [k x] Hkx. unfold extend. simpl. f_equal.
        rewrite with_transect_cons. rewrite decide_False; [done|].
        intros Heq. apply Hin. rewrite Heq.
        by apply (list_elem_of_fmap_2 fst) in Hkx.
      * simpl. unfold extend, fresh. simpl.
        rewrite with_transect_cons, decide_True by done. f_equal.
        rewrite <- first_appearance_filter, list_filter_filter.
        rewrite (list_filter_iff (λ t, t ≠ transect ed ∧ t ∉ d.*1)
                   (λ t, t ∉ (d ++ [(transect ed, [ed])]).*1)).
        2:{ intros t. simpl. rewrite fmap_app, elem_of_app. simpl.
            rewrite list_elem_of_singleton. tauto. }
        apply fmap_ext_in. intros t Ht.
        apply (proj1 (elem_of_first_appearance _ _)) in Ht.
        apply list_elem_of_filter in Ht as [Ht _].
        rewrite with_transect_cons, decide_False; [done|].
        intros <-. apply Ht. rewrite fmap_app, elem_of_app. right. simpl. left.
Qed.

Lemma collect_error name ed_list d :
  (∃ ed, ed ∈ ed_list ∧ error ed = true) →
  collect name ed_list d = inl (ValueError (failure_message name)).
Proof.
  revert d. induction ed_list as [|ed ed_list IH]; intros d (bad & Hbad & Herr).
  - by apply elem_of_nil in Hbad.
  - simpl. destruct (error ed) eqn:Hed; [done|].
    apply elem_of_cons in Hbad as [->|Hbad]; [congruence|].
    assert (∃ ed', ed' ∈ ed_list ∧ error ed' = true) as Hex by eauto.
    destruct (odict_in (transect ed) d) eqn:Hin.
    + apply odict_in_true, odict_get_is_inr in Hin as [g ->]. simpl.
      by apply IH.
    + simpl. by apply IH.
Qed.

Lemma emit_spec d (kvs : list (Z * list Ed)) outputs :
  NoDup d.*1 → (∀ kv, kv ∈ kvs → kv ∈ d) →
  emit d kvs.*1 outputs
  = inr (outputs ++ ((λ kv, {| output_data := kv.2 |}) <$> kvs)).
Proof.
  intros Hnd. revert outputs.
  induction kvs as [|[k g] kvs IH]; intros outputs Hsub; simpl.
  - by rewrite app_nil_r.
  - rewrite (odict_get_elem_of k g) by (done || apply Hsub; left). simpl.
    rewrite IH by (intros kv Hkv; apply Hsub; by right).
    by rewrite <- app_assoc.
Qed.

(** What [process_output_transects] returns for an input without a failed
    record, in closed form. *)
Lemma process_output_transects_eq name ed_list :
  (∀ ed, ed ∈ ed_list → error ed = false) →
  process_output_transects name ed_list
  = inr (Build_Output <$> transect_groups ed_list).
Proof.
  intros Herr. unfold process_output_transects.
  rewrite collect_spec by (done || constructor). simpl.
  rewrite filter_all by (intros t _; apply not_elem_of_nil).
  unfold odict_keys. rewrite emit_spec.
  - simpl. unfold transect_groups. by rewrite <- !list_fmap_compose.
  - rewrite <- list_fmap_compose. simpl. rewrite list_fmap_id.
    apply NoDup_first_appearance.
  - done.
Qed.

Lemma with_transect_nonempty t ed_list :
  t ∈ transect <$> ed_list → with_transect t ed_list ≠ [].
Proof.
  intros (ed & -> & Hed)%list_elem_of_fmap Hnil.
  assert (ed ∈ with_transect (transect ed) ed_list) as Hin
    by (by apply list_elem_of_filter).
  rewrite Hnil in Hin. by apply elem_of_nil in Hin.
Qed.

Lemma with_transect_idemp t t' ed_list :
  with_transect t (with_transect t' ed_list)
  = if decide (t' = t) then with_transect t ed_list else [].
Proof.
  unfold with_transect. rewrite list_filter_filter. case_decide as Heq.
  - subst t'. apply list_filter_iff. intros ed. simpl. tauto.
  - induction ed_list as [|ed ed_list IH]; [done|].
    rewrite filter_cons_False; [done|]. simpl. intros [? ?]. congruence.
Qed.

Lemma with_transect_app t ed_list1 ed_list2 :
  with_transect t (ed_list1 ++ ed_list2)
  = with_transect t ed_list1 ++ with_transect t ed_list2.
Proof. unfold with_transect. by rewrite filter_app. Qed.

(** Re-reading the groups of some transects, one group after the other. *)
Lemma with_transect_concat t ts ed_list :
  NoDup ts →
  with_transect t (concat ((λ t', with_transect t' ed_list) <$> ts))
  = if decide (t ∈ ts) then with_transect t ed_list else [].
Proof.
  induction 1 as [|t' ts Ht' Hnd IH].
  - by destruct (decide (t ∈ [])) as [?%elem_of_nil|].
  - rewrite fmap_cons. cbn [concat].
    rewrite with_transect_app, IH, with_transect_idemp.
    destruct (decide (t' = t)) as [->|Hne].
    + rewrite decide_False by done. rewrite app_nil_r.
      destruct (decide (t ∈ t :: ts)) as [_|Hn]; [done|]. destruct Hn. left.
    + destruct (decide (t ∈ ts)) as [Hin|Hnotin].
      * destruct (decide (t ∈ t' :: ts)) as [_|Hn]; [done|].
        destruct Hn. by right.
      * destruct (decide (t ∈ t' :: ts)) as [[?|?]%elem_of_cons|_]; done.
Qed.

Lemma first_appearance_concat ts ed_list :
  NoDup ts → (∀ t, t ∈ ts → with_transect t ed_list ≠ []) →
  first_appearance
    (transect <$> concat ((λ t, with_transect t ed_list) <$> ts))
  = ts.
Proof.
  induction 1 as [|t ts Ht Hnd IH]; intros Hne; simpl; [done|].
  rewrite fmap_app. rewrite (first_appearance_block _ _ t).
  - f_equal. apply IH. intros t' Ht'. apply Hne. by right.
  - intros Hnil. apply fmap_nil_inv in Hnil. by apply (Hne t); [left|].
  - intros t' (ed & -> & Hed)%list_elem_of_fmap.
    by apply list_elem_of_filter in Hed as [? _].
  - intros (ed & -> & Hed)%list_elem_of_fmap.
    apply elem_of_concat in Hed as (g & Hg & Hed).
    apply list_elem_of_fmap in Hg as (t' & -> & Ht').
    apply list_elem_of_filter in Hed as [<- _]. done.
Qed.

(** Grouping the groups again changes nothing. *)
Lemma transect_groups_idemp ed_list :
  transect_groups (concat (transect_groups ed_list)) = transect_groups ed_list.
Proof.
  unfold transect_groups at 1 3.
  set (ts := first_appearance (transect <$> ed_list)).
  assert (NoDup ts) as Hnd by apply NoDup_first_appearance.
  unfold transect_groups. fold ts.
  rewrite first_appearance_concat; [|done|].
  - apply fmap_ext_in. intros t Ht.
    rewrite with_transect_concat by done. by rewrite decide_True.
  - intros t Ht. apply with_transect_nonempty.
    by apply (proj1 (elem_of_first_appearance _ _)) in Ht.
Qed.
End file_utils_facts.

Section order_facts.
(** [filter] keeps the order of what it keeps. *)
Lemma filter_lookup_lt {A} (P : A → Prop) `{!∀ x, Decision (P x)}
    (l : list A) i j x y :
  i < j → filter P l !! i = Some x → filter P l !! j = Some y →
  ∃ i' j', i' < j' ∧ l !! i' = Some x ∧ l !! j' = Some y.
Proof.
  revert i j. induction l as [|a l IH]; intros i j Hij Hi Hj; [done|].
  rewrite filter_cons in Hi, Hj. case_decide.
  - destruct j as [|j]; [lia|]. simpl in Hj. destruct i as [|i]; simpl in Hi.
    + injection Hi as ->.
      apply list_elem_of_lookup_2, list_elem_of_filter in Hj as [_ Hy].
      apply list_elem_of_lookup_1 in Hy as [j' Hj'].
      exists 0, (S j'). split_and!; [lia|done..].
    + destruct (IH i j) as (i' & j' & ? & ? & ?); [lia|done..|].
      exists (S i'), (S j'). split_and!; [lia|done..].
  - destruct (IH i j) as (i' & j' & ? & ? & ?); [done..|].
    exists (S i'), (S j'). split_and!; [lia|done..].
Qed.

(** In [first_appearance ts] a value comes before another one when its
    first appearance in [ts] is before every appearance of the other. *)
Lemma first_appearance_order (ts : list Z) i j x y :
  i < j →
  first_appearance ts !! i = Some x → first_appearance ts !! j = Some y →
  ∃ a, ts !! a = Some x ∧ (∀ a', a' < a → ts !! a' ≠ Some x)
       ∧ ∀ b, ts !! b = Some y → a < b.
Proof.
  revert i j. induction ts as [|t ts IH]; intros i j Hij Hi Hj; [done|].
  simpl in Hi, Hj. destruct j as [|j]; [lia|]. simpl in Hj.
  assert (y ≠ t) as Hy.
  { apply list_elem_of_lookup_2, list_elem_of_filter in Hj as [? _]. done. }
  destruct i as [|i]; simpl in Hi.
  - injection Hi as ->. exists 0. split_and!; [done|lia|].
    intros [|b] Hb; [|lia]. simpl in Hb. congruence.
  - assert (x ≠ t) as Hx.
    { apply list_elem_of_lookup_2, list_elem_of_filter in Hi as [? _]. done. }
    destruct (filter_lookup_lt (λ t', t' ≠ t) _ i j x y ltac:(lia) Hi Hj)
      as (i' & j' & Hij' & Hi' & Hj').
    destruct (IH i' j' Hij' Hi' Hj') as (a & Ha & Hfirst & Hb).
    exists (S a). split_and!; [done| |].
    + intros [|a'] Ha'; simpl; [congruence|]. apply Hfirst. lia.
    + intros [|b] Hb'; simpl in Hb'; [congruence|].
      specialize (Hb b Hb'). lia.
Qed.
End order_facts.

(** C2.  The result aggregator fails fast.  For every process name and list
    of result records, if some record has its error flag set, then
    [process_output_transects] raises the [ValueError] whose message names
    the process, and it returns no list of outputs: one failed record among
    many is enough. *)
Theorem process_output_transects_fails_fast
    (name : string) (ed_list : list FileUtils.Ed) :
  (∃ ed, ed ∈ ed_list ∧ FileUtils.error ed = true) →
  FileUtils.process_output_transects name ed_list
  = inl (Py.ValueError (FileUtils.failure_message name))
  ∧ (∃ before after, FileUtils.failure_message name = before +:+ name +:+ after)
  ∧ ∀ outputs, FileUtils.process_output_transects name ed_list ≠ inr outputs.
Proof.
  intros Hbad.
  assert (FileUtils.process_output_transects name ed_list
          = inl (Py.ValueError (FileUtils.failure_message name))) as Hfail.
  { unfold FileUtils.process_output_transects. by rewrite collect_error. }
  split_and!; [done| |by rewrite Hfail].
  by eexists _, _.
Qed.

(** C6.  The result aggregator groups by transect.  For every list of result
    records none of which has its error flag set, [process_output_transects]
    returns one output per distinct transect.  The outputs hold, in this
    order, the groups of the transects in the order of their first appearance
    in the input (the transect of an earlier output appears in the input
    before every appearance of the transect of a later output), and the
    group of a transect is the records of the input with that transect, in
    input order; no group is empty. *)
Theorem process_output_transects_groups
    (name : string) (ed_list : list FileUtils.Ed) :
  (∀ ed, ed ∈ ed_list → FileUtils.error ed = false) →
  let ts := FileUtils.transect <$> ed_list in
  ∃ outputs,
    FileUtils.process_output_transects name ed_list = inr outputs ∧
    length outputs = size (list_to_set ts : gset Z) ∧
    FileUtils.output_data <$> outputs = transect_groups ed_list ∧
    NoDup (first_appearance ts) ∧
    (∀ t, t ∈ first_appearance ts ↔ t ∈ ts) ∧
    (∀ i output, outputs !! i = Some output →
       ∃ t, first_appearance ts !! i = Some t ∧
            FileUtils.output_data output
            = filter (λ ed, FileUtils.transect ed = t) ed_list ∧
            FileUtils.output_data output ≠ []) ∧
    (∀ i j ti tj,
       i < j →
       first_appearance ts !! i = Some ti → first_appearance ts !! j = Some tj →
       ∃ a, ts !! a = Some ti ∧ (∀ a', a' < a → ts !! a' ≠ Some ti)
            ∧ ∀ b, ts !! b = Some tj → a < b).
Proof.
  intros Herr ts. exists (FileUtils.Build_Output <$> transect_groups ed_list).
  split_and!.
  - by apply process_output_transects_eq.
  - unfold transect_groups. rewrite !length_fmap. apply length_first_appearance.
  - rewrite <- list_fmap_compose. apply list_fmap_id.
  - apply NoDup_first_appearance.
  - intros t. apply elem_of_first_appearance.
  - intros i output Hi. unfold transect_groups in Hi.
    rewrite <- list_fmap_compose, list_lookup_fmap in Hi. fold ts in Hi.
    destruct (first_appearance ts !! i) as [t|] eqn:Ht; [|done].
    injection Hi as <-. exists t. split_and!; [done..|]. simpl.
    apply with_transect_nonempty.
    by apply list_elem_of_lookup_2, (proj1 (elem_of_first_appearance _ _)) in Ht.
  - intros i j ti tj. apply first_appearance_order.
Qed.

(** C7.  Aggregation is idempotent.  For every list of result records none
    of which has its error flag set, putting the groups that
    [process_output_transects] returns one after the other and aggregating
    this list again returns the same outputs: the same groups in the same
    order, with the same records in the same order. *)
Theorem process_output_transects_idempotent
    (name : string) (ed_list : list FileUtils.Ed) :
  (∀ ed, ed ∈ ed_list → FileUtils.error ed = false) →
  ∃ outputs,
    FileUtils.process_output_transects name ed_list = inr outputs ∧
    FileUtils.process_output_transects name
      (concat (FileUtils.output_data <$> outputs))
    = inr outputs.
Proof.
  intros Herr. exists (FileUtils.Build_Output <$> transect_groups ed_list).
  split; [by apply process_output_transects_eq|].
  rewrite <- list_fmap_compose.
  rewrite (list_fmap_ext _ id) by done. rewrite list_fmap_id.
  rewrite process_output_transects_eq; [by rewrite transect_groups_idemp|].
  intros ed (g & Hg & Hed)%elem_of_concat. apply Herr.
  apply list_elem_of_fmap in Hg as (t & -> & _).
  by apply list_elem_of_filter in Hed as [_ ?].
Qed.

(** ** stages_v2/subflows/initialization_flow.py: the orchestration loop *)

Section init_flow_facts.
Import Py InitFlow.
Context `{Collaborators}.
Implicit Types (recipe : Recipe) (dataset : Dataset) (stage : Stage)
  (l : Locals) (tr : list event).

Lemma clusters_app tr1 tr2 : clusters (tr1 ++ tr2) = clusters tr1 ++ clusters tr2.
Proof. apply omap_app. Qed.
Lemma clients_app tr1 tr2 : clients (tr1 ++ tr2) = clients tr1 ++ clients tr2.
Proof. apply omap_app. Qed.
Lemma runners_app tr1 tr2 : runners (tr1 ++ tr2) = runners tr1 ++ runners tr2.
Proof. apply omap_app. Qed.
Lemma closes_app tr1 tr2 : closes (tr1 ++ tr2) = closes tr1 ++ closes tr2.
Proof. apply omap_app. Qed.
Lemma calls_app tr1 tr2 : calls (tr1 ++ tr2) = calls tr1 ++ calls tr2.
Proof. apply omap_app. Qed.

(** *** The loops *)

(** An invariant [I], indexed by the items handled so far, holds after a
    loop that returns; [F] holds of the trace of a loop that raises. *)
Lemma for_each_invariant {A S} (body : A → S → M S)
    (I : list A → S → list event → Prop) (F : list event → Prop)
    (xs : list A) :
  (∀ seen x rest s tr, xs = seen ++ x :: rest → I seen s tr →
     match body x s tr with
     | (inr s', tr') => I (seen ++ [x]) s' tr'
     | (inl _, tr') => F tr'
     end) →
  ∀ s tr, I [] s tr →
    match for_each xs body s tr with
    | (inr s', tr') => I xs s' tr'
    | (inl _, tr') => F tr'
    end.
Proof.
  intros Hbody.
  assert (∀ todo seen s tr, xs = seen ++ todo → I seen s tr →
            match for_each todo body s tr with
            | (inr s', tr') => I xs s' tr'
            | (inl _, tr') => F tr'
            end) as Hgen; [|intros s tr; by apply (Hgen xs [])].
  induction todo as [|x todo IH]; intros seen s tr Hxs HI; simpl.
  - rewrite app_nil_r in Hxs. by subst seen.
  - unfold mseq. specialize (Hbody seen x todo s tr Hxs HI).
    destruct (body x s tr) as [[e|s'] tr']; [done|].
    apply (IH (seen ++ [x])); [|done]. by rewrite <- app_assoc.
Qed.

(** *** One stage *)

Lemma select_backend_step recipe prefect_config_dict before tr :
  ∃ evs after,
    backend_step recipe before evs after ∧
    (select_backend recipe prefect_config_dict before tr).2 = tr ++ evs ∧
    match (select_backend recipe prefect_config_dict before tr).1 with
    | inl _ => after = None
    | inr (_, client) => after = Some client
    end.
Proof.
  unfold select_backend, set_task_runner, mseq, lift, log, mpure, throw.
  destruct (scheduler_address recipe) as [address|] eqn:Haddr;
    destruct (use_local_dask recipe) eqn:Hlocal;
    destruct prefect_config_dict as [d|];
    destruct before as [client|]; simpl;
    try destruct (task_runner_is_None d); simpl;
    try destruct (LocalCluster 3) as [?|cluster]; simpl;
    try destruct (new_Client _) as [?|client']; simpl;
    rewrite <- ?app_assoc; simpl;
    eexists _, _; (split; [|split; [try reflexivity; by rewrite app_nil_r|]]);
    try reflexivity;
    eauto using backend_step.
Qed.

(** What one iteration of the loop over the stages does: it raises before
    the stage is called, or the stage is called and raises, or the stage
    is called and returns. *)
Lemma stage_body_step recipe dataset stage l tr :
  ∃ evs after,
    backend_step recipe (client l) evs after ∧
    ((∃ e, stage_body recipe dataset stage l tr = (inl e, tr ++ evs))
     ∨ (∃ e, is_Some after ∧
          stage_body recipe dataset stage l tr
          = (inl e, tr ++ evs ++ [EvCall stage (data l) (inl e)]))
     ∨ (∃ l', after = Some (client l') ∧
          output l' = Some (data l') ∧
          stage_body recipe dataset stage l tr
          = (inr l', tr ++ evs ++ [EvCall stage (data l) (inr (data l'))]))).
Proof.
  unfold stage_body, mseq, lift.
  destruct (dynamic_function_call _ _) as [e|function].
  { exists [], (Some (client l)). split; [constructor|].
    left. exists e. by rewrite app_nil_r. }
  destruct (get_prefect_config_dict _ _ _) as [e|pcd].
  { exists [], (Some (client l)). split; [constructor|].
    left. exists e. by rewrite app_nil_r. }
  destruct (select_backend_step recipe pcd (client l) tr)
    as (evs & after & Hstep & Htr & Hres).
  exists evs, after. split; [done|].
  destruct (select_backend recipe pcd (client l) tr) as [[e|[pcd' c]] tr'];
    simpl in Htr, Hres; subst tr'.
  { left. by exists e. }
  subst after. destruct pcd' as [d|]; [|left; by eexists].
  destruct (with_options function d) as [e|function']; [left; by eexists|].
  unfold log, mpure. simpl.
  destruct (call function' dataset stage (data l)) as [e|o].
  - right. left. exists e. rewrite <- app_assoc. eauto.
  - right. right. eexists {| data := o |}. simpl. rewrite <- app_assoc. eauto.
Qed.

(** *** The compute backend *)

Ltac trace_simpl :=
  rewrite ?clusters_app, ?clients_app, ?runners_app, ?closes_app, ?calls_app;
  simpl; rewrite ?app_nil_r.

Lemma backend_inv_ok recipe current tr :
  backend_inv recipe current tr → backend_ok recipe tr.
Proof.
  intros [Hcloses Hinv]. unfold backend_ok. rewrite Hcloses.
  destruct current as [client|].
  - destruct Hinv as [Hrun [(a & Ha & Hl & -> & ->)|(cl & Hl & -> & ->)]];
      simpl; split_and!; try done; try lia.
    + intros c ->%Hrun. eauto.
    + by intros c ?%elem_of_nil.
    + intros c ->%Hrun. eauto.
    + by intros c ?%elem_of_nil.
  - destruct Hinv as (-> & -> & ->). simpl. split_and!; try done; try lia.
    + by intros c ?%elem_of_nil.
    + by intros c ?%elem_of_nil.
Qed.

Lemma backend_inv_call recipe current tr stage input returned :
  backend_inv recipe current tr →
  backend_inv recipe current (tr ++ [EvCall stage input returned]).
Proof. unfold backend_inv. by trace_simpl. Qed.

Lemma backend_step_inv recipe current tr evs after :
  backend_inv recipe current tr →
  backend_step recipe current evs after →
  match after with
  | Some current' => backend_inv recipe current' (tr ++ evs)
  | None => backend_ok recipe (tr ++ evs)
  end.
Proof.
  intros Hinv Hstep.
  assert (∀ client tr', tr' = tr → current = None →
            backend_inv recipe (Some client) (tr' ++ evs) →
            match after with
            | Some current' => current' = Some client
            | None => True
            end →
            match after with
            | Some current' => backend_inv recipe current' (tr ++ evs)
            | None => backend_ok recipe (tr ++ evs)
            end) as Hcreated.
  { intros client tr' -> _ Hinv' Hafter. destruct after as [current'|].
    - by subst current'.
    - by eapply backend_inv_ok. }
  destruct Hstep as [|client Hb|client Hb|Hb|address client after Hb Ha Hl Hafter
                    |cluster Hb Hl|cluster client after Hb Hl Hafter];
    try subst current.
  - by rewrite app_nil_r.
  - destruct Hinv as (Hcloses & Hrun & Hcreated'). split; [by trace_simpl|].
    split; [|by trace_simpl].
    trace_simpl. intros c [?| ->%list_elem_of_singleton]%elem_of_app; auto.
  - apply (backend_inv_ok _ (Some client)).
    destruct Hinv as (Hcloses & Hrun & Hcreated'). split; [by trace_simpl|].
    split; [|by trace_simpl].
    trace_simpl. intros c [?| ->%list_elem_of_singleton]%elem_of_app; auto.
  - rewrite app_nil_r. by eapply backend_inv_ok.
  - destruct Hinv as (Hcloses & Hcl & Hcs & Hrun).
    apply (Hcreated client tr); [done..| |by destruct Hafter as [->| ->]].
    split; [by trace_simpl; rewrite Hcloses|]. trace_simpl.
    rewrite Hcl, Hcs, Hrun. simpl. split.
    + by intros c ->%list_elem_of_singleton.
    + left. eauto.
  - destruct Hinv as (Hcloses & Hcl & Hcs & Hrun).
    unfold backend_ok. trace_simpl. rewrite Hcloses, Hcl, Hcs, Hrun. simpl.
    split_and!; try done; try lia; by intros c ?%elem_of_nil.
  - destruct Hinv as (Hcloses & Hcl & Hcs & Hrun).
    apply (Hcreated client tr); [done..| |by destruct Hafter as [->| ->]].
    split; [by trace_simpl; rewrite Hcloses|]. trace_simpl.
    rewrite Hcl, Hcs, Hrun. simpl. split.
    + by intros c ->%list_elem_of_singleton.
    + right. eauto.
Qed.

Lemma stage_body_backend_inv recipe dataset stage l tr :
  backend_inv recipe (client l) tr →
  match stage_body recipe dataset stage l tr with
  | (inr l', tr') => backend_inv recipe (client l') tr'
  | (inl _, tr') => backend_ok recipe tr'
  end.
Proof.
  intros Hinv.
  destruct (stage_body_step recipe dataset stage l tr)
    as (evs & after & Hstep & Hcases).
  pose proof (backend_step_inv _ _ _ _ _ Hinv Hstep) as Hafter.
  destruct Hcases as [[e Heq]|[(e & [current' Hsome] & Heq)|(l' & Hsome & Hout & Heq)]];
    rewrite Heq; try subst after.
  - destruct after; [by eapply backend_inv_ok|done].
  - rewrite app_assoc. by eapply backend_inv_ok, backend_inv_call.
  - rewrite app_assoc. by apply backend_inv_call.
Qed.

Lemma run_backend_ok recipe dataset : backend_ok recipe (run recipe dataset).2.
Proof.
  unfold run, init_flow, mseq, lift.
  assert (backend_ok recipe []) as Hnil.
  { unfold backend_ok. simpl. split_and!; try done; try lia;
      by intros c ?%elem_of_nil. }
  destruct (classified_files dataset) as [e|data0]; [done|].
  set (l0 := {| data := data0 |}).
  pose proof (for_each_invariant
                (λ process, for_each (stages process) (stage_body recipe dataset))
                (λ _ l tr, backend_inv recipe (client l) tr)
                (backend_ok recipe) (pipeline recipe)) as Hloop.
  specialize (Hloop ltac:(
    intros seen process rest l tr _ Hinv;
    by apply (for_each_invariant (stage_body recipe dataset)
                (λ _ l tr, backend_inv recipe (client l) tr)
                (backend_ok recipe) (stages process)
                ltac:(intros seen' stage rest' l' tr' _;
                      apply stage_body_backend_inv)))).
  specialize (Hloop l0 [] ltac:(by split)).
  destruct (for_each _ _ _ _) as [[e|l] tr]; [done|].
  destruct (bool_decide (scheduler_address recipe = None)
            && use_local_dask recipe) eqn:Hclose.
  - apply andb_true_iff in Hclose as [Haddr%bool_decide_eq_true Hlocal].
    destruct (client l) as [client|] eqn:Hclient;
      [|by eapply backend_inv_ok].
    unfold log, mpure, throw. simpl.
    assert (backend_ok recipe (tr ++ [EvClose client])) as Hok.
    { destruct Hloop as (Hcloses & Hrun & Hcreated).
      destruct Hcreated as [(a & Ha & _)|(cl & _ & Hcl & Hcs)]; [congruence|].
      unfold backend_ok. trace_simpl. rewrite Hcloses, Hcl, Hcs. simpl.
      split_and!; try done; try lia.
      - intros c ->%Hrun. eauto.
      - intros c ->%list_elem_of_singleton. eauto. }
    by destruct (output l).
  - unfold mpure, throw. simpl.
    destruct (output l); by eapply backend_inv_ok.
Qed.

(** *** The order of the stages *)




Lemma backend_step_calls recipe before evs after :
  backend_step recipe before evs after → calls evs = [].
Proof. by destruct 1. Qed.




(** *** A recipe without a stage *)

Lemma for_each_no_stage recipe dataset (processes : list Process) l tr :
  (∀ process, process ∈ processes → stages process = []) →
  for_each processes
    (λ process, for_each (stages process) (stage_body recipe dataset)) l tr
  = (inr l, tr).
Proof.
  revert l tr. induction processes as [|process processes IH];
    intros l tr Hempty; simpl; [done|].
  unfold mseq. rewrite (Hempty process) by left. simpl.
  apply IH. intros process' Hin. apply Hempty. by right.
Qed.

Lemma run_no_stage recipe dataset :
  (∀ process, process ∈ pipeline recipe → stages process = []) →
  run recipe dataset
  = match classified_files dataset with
    | inl e => (inl e, [])
    | inr _ => (inl (no_stage_error recipe), [])
    end.
Proof.
  intros Hempty. unfold run, init_flow, mseq, lift, no_stage_error.
  destruct (classified_files dataset) as [e|input]; [done|].
  rewrite for_each_no_stage by done. simpl.
  by destruct (bool_decide (scheduler_address recipe = None)
               && use_local_dask recipe).
Qed.

(** *** Runs that return *)




(** A run closes its client exactly when it reaches the end of the loops
    with a client, for a recipe without a scheduler address that asks for a
    local cluster: with a scheduler address nothing is ever closed, be the
    client a connection to that address or one the run created on a local
    cluster of its own. *)
Lemma run_with_address_closes_nothing recipe dataset address :
  scheduler_address recipe = Some address → closes (run recipe dataset).2 = [].
Proof.
  intros Haddr.
  destruct (run_backend_ok recipe dataset) as (_ & _ & _ & _ & _ & Hclosed).
  destruct (closes (run recipe dataset).2) as [|c cs]; [done|].
  destruct (Hclosed c) as [Hnone _]; [left|congruence].
Qed.

(** C3.  The compute backend, over one run of [init_flow], however many
    processes and stages the recipe has and however the run ends:
    - at most one local cluster is created, and only when the recipe asks
      for one; none is created by a recipe without a stage;
    - at most one client is created, and every task runner the run builds
      is built on this client: the one created first is used by every
      later stage;
    - the run closes at most one client, and a client it closes is the
      client it created on the local cluster it created (which it does
      only when the recipe has no scheduler address and asks for a local
      cluster). *)
Theorem init_flow_one_local_cluster recipe dataset :
  let tr := (run recipe dataset).2 in
  length (clusters tr) ≤ 1 ∧
  (clusters tr ≠ [] → use_local_dask recipe = true) ∧
  (declared_stages recipe = [] → clusters tr = [] ∧ clients tr = []) ∧
  length (clients tr) ≤ 1 ∧
  (∀ c, c ∈ runners tr → ∃ address, clients tr = [(address, c)]) ∧
  length (closes tr) ≤ 1 ∧
  (∀ c, c ∈ closes tr →
     scheduler_address recipe = None ∧ use_local_dask recipe = true ∧
     ∃ cluster, clusters tr = [cluster] ∧
                clients tr = [(cluster_scheduler_address cluster, c)]).
Proof.
  intros tr.
  destruct (run_backend_ok recipe dataset)
    as (Hclusters & Hclients & Hcloses & Hlocal & Hrunners & Hclosed).
  split_and!; try done.
  intros Hnone. unfold tr. rewrite run_no_stage.
  - by destruct (classified_files dataset).
  - intros process Hin. unfold declared_stages in Hnone.
    destruct (stages process) as [|stage rest] eqn:Hstages; [done|].
    assert (stage ∈ concat (stages <$> pipeline recipe)) as Hstage.
    { apply elem_of_concat. exists (stages process).
      split; [by apply list_elem_of_fmap_2|]. rewrite Hstages. left. }
    rewrite Hnone in Hstage. by apply elem_of_nil in Hstage.
Qed.


(** C10.  A recipe without a stage.  For every recipe whose process list
    is empty or whose processes all have an empty stage list, [init_flow]
    does not return: it raises, having called no stage and created
    nothing; in particular it does not return the classified file
    collection.  When the file collection was computed, the exception is
    the unbound local variable [output], or, if the recipe has no
    scheduler address and asks for a local cluster, the attribute error of
    closing the client that was never created. *)
Theorem init_flow_needs_a_stage recipe dataset :
  (∀ process, process ∈ pipeline recipe → stages process = []) →
  (∃ e, (run recipe dataset).1 = inl e) ∧
  (run recipe dataset).2 = [] ∧
  (∀ input, classified_files dataset = inr input →
     (run recipe dataset).1 ≠ inr input ∧
     (run recipe dataset).1
     = inl (if bool_decide (scheduler_address recipe = None)
               && use_local_dask recipe
            then AttributeError "'NoneType' object has no attribute 'close'"
            else UnboundLocalError "output")).
Proof.
  intros Hempty. rewrite run_no_stage by done.
  destruct (classified_files dataset) as [e|input]; simpl.
  - split_and!; [by eexists|done..].
  - split_and!; [by eexists|done|]. by intros input' Hinput'.
Qed.
End init_flow_facts.

(** ** subflows/fetch/utils.py: the temporal classifier *)

Section fetch_utils_facts.
Import Py FetchUtils.
Context `{Libraries}.

(** C9.  A file that does not match.  For every file identifier and
    pattern (a pattern that compiles), if the pattern does not match the
    identifier, then [parse_file_path] raises: [search] gives [None] and
    the call of [groupdict] on it is the attribute error that reaches the
    caller, nothing in the function catches it; no dictionary is
    returned. *)
Theorem parse_file_path_no_match raw_file fname_pattern matcher :
  re_compile fname_pattern = inr matcher →
  search matcher raw_file = None →
  parse_file_path raw_file fname_pattern
  = inl (AttributeError "'NoneType' object has no attribute 'groupdict'")
  ∧ ∀ match_dict, parse_file_path raw_file fname_pattern ≠ inr match_dict.
Proof.
  intros Hcompile Hsearch. unfold parse_file_path.
  rewrite Hcompile. simpl. rewrite Hsearch. simpl. by split.
Qed.

(** C8.  A pattern without a date or without a time.  For every file
    identifier and pattern that matches it, if the named groups of the
    match lack [date] or lack [time] (in particular if the pattern defines
    one of the two and not the other), then [parse_file_path] returns the
    captured groups as they are, with the entry [datetime] set to [None]
    when the pattern has no group of that name: no timestamp is derived,
    and no [jday], [month] or [year] is added. *)
Theorem parse_file_path_no_timestamp raw_file fname_pattern matcher groups :
  re_compile fname_pattern = inr matcher →
  search matcher raw_file = Some groups →
  groups !! "date" = None ∨ groups !! "time" = None →
  ∃ match_dict,
    parse_file_path raw_file fname_pattern = inr match_dict ∧
    match_dict = setdefault "datetime" VNone (group_value <$> groups) ∧
    (∀ k, k ≠ "datetime" → match_dict !! k = group_value <$> groups !! k) ∧
    (∀ k, k ∈ ["jday"; "month"; "year"] →
       match_dict !! k = group_value <$> groups !! k) ∧
    match_dict !! "datetime"
    = Some (from_option group_value VNone (groups !! "datetime")).
Proof.
  intros Hcompile Hsearch Hmissing. unfold parse_file_path.
  rewrite Hcompile. simpl. rewrite Hsearch. simpl.
  assert (∀ k, k ≠ "datetime" →
            setdefault "datetime" VNone (group_value <$> groups) !! k
            = group_value <$> groups !! k) as Hother.
  { intros k Hk. unfold setdefault. rewrite !lookup_fmap.
    destruct (groups !! "datetime"); simpl; [by rewrite lookup_fmap|].
    by rewrite lookup_insert_ne, lookup_fmap. }
  exists (setdefault "datetime" VNone (group_value <$> groups)).
  split_and!; [|done|done| |].
  - destruct Hmissing as [-> | ->]; [done|]. by destruct (groups !! "date").
  - intros k Hk. apply Hother. intros ->.
    repeat (apply elem_of_cons in Hk as [Hk|Hk]; [done|]).
    by apply elem_of_nil in Hk.
  - unfold setdefault. rewrite !lookup_fmap.
    destruct (groups !! "datetime") eqn:Hdt; simpl.
    + by rewrite lookup_fmap, Hdt.
    + by rewrite lookup_insert_eq.
Qed.
End fetch_utils_facts.

(** ** stages_v2/subflows/initialization_flow.py: how a run ends *)

Section init_flow_more_facts.
Import Py InitFlow.
Context `{Collaborators}.
Implicit Types (recipe : Recipe) (dataset : Dataset) (stage : Stage)
  (l : Locals) (tr : list event).

(** The loop invariant rule, with the exception in view. *)
Lemma for_each_invariant_exn {A S} (body : A → S → M S)
    (I : list A → S → list event → Prop) (F : exn → list event → Prop)
    (xs : list A) :
  (∀ seen x rest s tr, xs = seen ++ x :: rest → I seen s tr →
     match body x s tr with
     | (inr s', tr') => I (seen ++ [x]) s' tr'
     | (inl e, tr') => F e tr'
     end) →
  ∀ s tr, I [] s tr →
    match for_each xs body s tr with
    | (inr s', tr') => I xs s' tr'
    | (inl e, tr') => F e tr'
    end.
Proof.
  intros Hbody.
  assert (∀ todo seen s tr, xs = seen ++ todo → I seen s tr →
            match for_each todo body s tr with
            | (inr s', tr') => I xs s' tr'
            | (inl e, tr') => F e tr'
            end) as Hgen; [|intros s tr; by apply (Hgen xs [])].
  induction todo as [|x todo IH]; intros seen s tr Hxs HI; simpl.
  - rewrite app_nil_r in Hxs. by subst seen.
  - unfold mseq. specialize (Hbody seen x todo s tr Hxs HI).
    destruct (body x s tr) as [[e|s'] tr']; [done|].
    apply (IH (seen ++ [x])); [|done]. by rewrite <- app_assoc.
Qed.

Lemma all_returned_nil : all_returned [].
Proof. by intros c ?%elem_of_nil. Qed.

Lemma all_returned_snoc cs stage given d :
  all_returned cs → all_returned (cs ++ [(stage, given, inr d)]).
Proof.
  intros Hcs c [Hc| ->%list_elem_of_singleton]%elem_of_app; [by apply Hcs|].
  by exists d.
Qed.

Lemma backend_step_closes recipe before evs after :
  backend_step recipe before evs after → closes evs = [].
Proof. by destruct 1. Qed.

Lemma stage_body_shape recipe dataset seen stage l tr :
  shape_inv seen l tr →
  match stage_body recipe dataset stage l tr with
  | (inr l', tr') => shape_inv (seen ++ [stage]) l' tr'
  | (inl e, tr') => run_end recipe (inl e) tr'
  end.
Proof.
  intros (Hret & Hcloses & Hseen & Hclient).
  destruct (stage_body_step recipe dataset stage l tr)
    as (evs & after & Hstep & Hcases).
  pose proof (backend_step_calls _ _ _ _ Hstep) as Hcalls.
  pose proof (backend_step_closes _ _ _ _ Hstep) as Hcl.
  destruct Hcases as [[e Heq]|[(e & _ & Heq)|(l' & _ & Hout & Heq)]];
    rewrite Heq.
  - apply end_raises.
    + by rewrite calls_app, Hcalls, app_nil_r.
    + by rewrite closes_app, Hcl, Hcloses.
  - rewrite app_assoc. apply end_stage_raises.
    + by rewrite calls_app, Hcalls, app_nil_r.
    + by rewrite closes_app, Hcl, Hcloses.
  - unfold shape_inv.
    rewrite !calls_app, !closes_app, Hcalls, Hcl, Hcloses. simpl.
    rewrite !fmap_app, Hseen. simpl. split_and!; [|done|done|].
    + by apply all_returned_snoc.
    + intros _. rewrite Hout. by eexists.
Qed.

Lemma run_run_end recipe dataset :
  run_end recipe (run recipe dataset).1 (run recipe dataset).2.
Proof.
  unfold run, init_flow, mseq, lift.
  destruct (classified_files dataset) as [e|input].
  { simpl. apply end_raises; [apply all_returned_nil|done]. }
  set (l0 := {| data := input |}).
  pose proof (for_each_invariant_exn
                (λ process, for_each (stages process) (stage_body recipe dataset))
                (λ seen, shape_inv (concat (stages <$> seen)))
                (λ e tr, run_end recipe (inl e) tr) (pipeline recipe)) as Hloop.
  specialize (Hloop ltac:(
    intros seen process rest l tr Hdecl HI; cbv beta;
    rewrite fmap_app, concat_app; simpl; rewrite app_nil_r;
    apply (for_each_invariant_exn (stage_body recipe dataset)
             (λ seen', shape_inv (concat (stages <$> seen) ++ seen'))
             (λ e tr, run_end recipe (inl e) tr) (stages process));
    [|by rewrite app_nil_r];
    intros seen' stage rest' l' tr' Hstages HI';
    rewrite app_assoc; by apply stage_body_shape)).
  specialize (Hloop l0 [] ltac:(
    split_and!; [apply all_returned_nil|done|done|by intros [? [=]]])).
  destruct (for_each _ _ _ _) as [[e|l] tr]; [done|].
  fold (declared_stages recipe) in Hloop.
  destruct Hloop as (Hret & Hcloses & Hseen & Hclient).
  destruct (bool_decide (scheduler_address recipe = None)
            && use_local_dask recipe).
  - destruct (client l) as [client|] eqn:Hc.
    + destruct Hclient as [v Hv]; [by eexists|].
      unfold log, mpure. simpl. rewrite Hv. simpl.
      by apply end_closes_returns.
    + unfold throw. simpl. by apply end_raises.
  - unfold mpure, throw. simpl.
    destruct (output l); simpl; [by apply end_returns|by apply end_raises].
Qed.

Lemma snoc_eq_middle {A} (cs before after : list A) (c x : A) :
  cs ++ [c] = before ++ x :: after → x ∉ cs → after = [] ∧ x = c.
Proof.
  intros Heq Hx. destruct after as [|z after _] using rev_ind.
  - apply app_inj_tail in Heq as [_ ->]. done.
  - rewrite app_comm_cons, app_assoc in Heq.
    apply app_inj_tail in Heq as [-> _].
    destruct Hx. apply elem_of_app. right. left.
Qed.

(** X1.  A stage that raises ends the run.  In every run of [init_flow], if
    a stage call raised, then it was the last call and the last event of the
    run: the run raises the same exception, no later stage is called and no
    client is closed. *)
Theorem init_flow_stage_failure_is_fatal recipe dataset before stage given e after :
  calls (run recipe dataset).2 = before ++ (stage, given, inl e) :: after →
  after = [] ∧
  (run recipe dataset).1 = inl e ∧
  last (run recipe dataset).2 = Some (EvCall stage given (inl e)) ∧
  closes (run recipe dataset).2 = [].
Proof.
  intros Hcalls. pose proof (run_run_end recipe dataset) as Hend.
  destruct (run recipe dataset) as [res tr]. simpl in *.
  assert (∀ cs, all_returned cs → cs ≠ before ++ (stage, given, inl e) :: after)
    as Hno.
  { intros cs Hcs ->. destruct (Hcs (stage, given, inl e)) as [d Hd]; [|done].
    apply elem_of_app. right. left. }
  inversion Hend as [e' tr' Hret Hcl|e' tr' stage' given' Hret Hcl
                    |v tr' Hret Hcl Hall|v tr' client Hret Hcl Hall]; subst.
  - by destruct (Hno _ Hret).
  - rewrite calls_app in Hcalls. simpl in Hcalls.
    destruct (snoc_eq_middle _ _ _ _ _ Hcalls) as [-> Heq].
    { intros Hin. destruct (Hret _ Hin) as [d Hd]. done. }
    injection Heq as <- <- <-.
    rewrite last_snoc, closes_app, Hcl. done.
  - by destruct (Hno _ Hret).
  - rewrite calls_app in Hcalls. simpl in Hcalls. rewrite app_nil_r in Hcalls.
    by destruct (Hno _ Hret).
Qed.

(** X2.  Closing comes last.  In every run of [init_flow] that closes a
    client, the close is the last event of the run and the only close: before
    it every declared stage was called, in declared order, and returned; and
    the run returns. *)
Theorem init_flow_close_ends_the_run recipe dataset client :
  client ∈ closes (run recipe dataset).2 →
  ∃ v tr,
    (run recipe dataset).1 = inr v ∧
    (run recipe dataset).2 = tr ++ [EvClose client] ∧
    closes tr = [] ∧
    (calls tr).*1.*1 = declared_stages recipe ∧
    all_returned (calls tr).
Proof.
  intros Hin. pose proof (run_run_end recipe dataset) as Hend.
  destruct (run recipe dataset) as [res tr]. simpl in *.
  inversion Hend as [e' tr' Hret Hcl|e' tr' stage' given' Hret Hcl
                    |v tr' Hret Hcl Hall|v tr' client' Hret Hcl Hall]; subst.
  - rewrite Hcl in Hin. by apply elem_of_nil in Hin.
  - rewrite closes_app, Hcl in Hin. by apply elem_of_nil in Hin.
  - rewrite Hcl in Hin. by apply elem_of_nil in Hin.
  - rewrite closes_app, Hcl in Hin. simpl in Hin.
    apply list_elem_of_singleton in Hin as ->. by exists v, tr'.
Qed.

(** *** The three modes of the backend *)

Lemma select_backend_keeps recipe prefect_config_dict before tr :
  scheduler_address recipe = None →
  use_local_dask recipe = false
  ∨ from_option task_runner_is_None false prefect_config_dict = false →
  select_backend recipe prefect_config_dict before tr
  = (inr (prefect_config_dict, before), tr).
Proof.
  intros Haddr Hcond. unfold select_backend, mpure. rewrite Haddr.
  destruct Hcond as [Hcond|Hcond]; rewrite Hcond; [reflexivity|].
  by rewrite andb_false_r.
Qed.

(** What one iteration does when the choice of the task runner leaves
    everything as it is. *)
Lemma stage_body_keeps recipe dataset stage l tr :
  scheduler_address recipe = None →
  (∀ d, get_prefect_config_dict stage recipe (prefect_config_dict l)
        = inr (Some d) →
        use_local_dask recipe = false ∨ task_runner_is_None d = false) →
  (∃ e, stage_body recipe dataset stage l tr = (inl e, tr))
  ∨ (∃ e, stage_body recipe dataset stage l tr
          = (inl e, tr ++ [EvCall stage (data l) (inl e)]))
  ∨ (∃ l', client l' = client l ∧ output l' = Some (data l') ∧
       stage_body recipe dataset stage l tr
       = (inr l', tr ++ [EvCall stage (data l) (inr (data l'))])).
Proof.
  intros Haddr Hkeep. unfold stage_body, mseq, lift.
  destruct (dynamic_function_call _ _) as [e|function]; [left; by eexists|].
  destruct (get_prefect_config_dict _ _ _) as [e|pcd]; [left; by eexists|].
  rewrite select_backend_keeps; [|done|].
  2:{ destruct pcd as [d|]; [|by right]. by apply Hkeep. }
  destruct pcd as [d|]; [|left; by eexists].
  destruct (with_options function d) as [e|function']; [left; by eexists|].
  unfold log, mpure. simpl.
  destruct (call function' dataset stage (data l)) as [e|o].
  - right. left. by exists e.
  - right. right. eexists {| data := o |}. simpl. eauto.
Qed.

Lemma only_calls_call tr stage given returned :
  only_calls tr → only_calls (tr ++ [EvCall stage given returned]).
Proof.
  unfold only_calls.
  rewrite clusters_app, clients_app, runners_app, closes_app. simpl.
  by rewrite !app_nil_r.
Qed.

Lemma loops_keep recipe dataset input :
  scheduler_address recipe = None →
  (∀ stage options d, stage ∈ declared_stages recipe →
     get_prefect_config_dict stage recipe options = inr (Some d) →
     use_local_dask recipe = false ∨ task_runner_is_None d = false) →
  match for_each (pipeline recipe)
          (λ process, for_each (stages process) (stage_body recipe dataset))
          {| prefect_config_dict := Some ∅; client := None;
             data := input; output := None |} [] with
  | (inr l, tr) => client l = None ∧ only_calls tr
  | (inl _, tr) => only_calls tr
  end.
Proof.
  intros Haddr Hkeep.
  apply (for_each_invariant
           (λ process, for_each (stages process) (stage_body recipe dataset))
           (λ _ l tr, client l = None ∧ only_calls tr) only_calls
           (pipeline recipe)); [|done].
  intros seen process rest l tr Hdecl HI.
  apply (for_each_invariant (stage_body recipe dataset)
           (λ _ l tr, client l = None ∧ only_calls tr) only_calls
           (stages process)); [|done].
  intros seen' stage rest' l' tr' Hstages [Hclient Honly].
  destruct (stage_body_keeps recipe dataset stage l' tr' Haddr)
    as [[e ->]|[[e ->]|(l'' & Hc & _ & ->)]].
  - intros d Hd. apply (Hkeep stage (prefect_config_dict l') d); [|done].
    unfold declared_stages. rewrite Hdecl, fmap_app, concat_app. simpl.
    rewrite Hstages, !elem_of_app, elem_of_cons. auto.
  - done.
  - by apply only_calls_call.
  - split; [congruence|by apply only_calls_call].
Qed.

(** X3.  No backend asked for.  For a recipe without a scheduler address that
    does not ask for a local cluster, a run of [init_flow] creates no cluster,
    no client and no task runner, and closes nothing, however it ends. *)
Theorem init_flow_sequential recipe dataset :
  scheduler_address recipe = None → use_local_dask recipe = false →
  let tr := (run recipe dataset).2 in
  clusters tr = [] ∧ clients tr = [] ∧ runners tr = [] ∧ closes tr = [].
Proof.
  intros Haddr Hlocal. unfold run, init_flow, mseq, lift.
  destruct (classified_files dataset) as [e|input]; [done|].
  pose proof (loops_keep recipe dataset input Haddr
                ltac:(intros; by left)) as Hloop.
  destruct (for_each _ _ _ _) as [[e|l] tr]; [done|].
  rewrite Hlocal, andb_false_r. unfold mpure, throw. simpl.
  destruct Hloop as [_ Honly]. by destruct (output l).
Qed.

Lemma stage_body_own_runner recipe dataset stage l tr :
  scheduler_address recipe = None →
  own_runners recipe dataset → stage ∈ declared_stages recipe →
  ∃ l', client l' = client l ∧
        stage_body recipe dataset stage l tr
        = (inr l', tr ++ [EvCall stage (data l) (inr (data l'))]).
Proof.
  intros Haddr (_ & Hresolve & Hoptions & Hwith & Hcall) Hstage.
  unfold stage_body, mseq, lift.
  destruct (Hresolve stage Hstage) as [function ->].
  destruct (Hoptions stage (prefect_config_dict l) Hstage) as (d & -> & Hrunner).
  rewrite select_backend_keeps by (done || by right).
  destruct (Hwith function d) as [function' ->].
  destruct (Hcall function' stage (data l) Hstage) as [returned ->].
  unfold log, mpure. simpl. eexists {| data := returned |}. simpl. eauto.
Qed.

(** X4.  Stages with a task runner of their own.  For a recipe without a
    scheduler address that asks for a local cluster, if the options of every
    stage name a task runner and no collaborator raises, then the run calls
    every declared stage, in declared order, each call returns, no cluster
    and no client is created, and the run raises all the same: the final
    [client.close()] finds [client] to be [None]. *)
Theorem init_flow_own_runners_close_fails recipe dataset :
  scheduler_address recipe = None → use_local_dask recipe = true →
  own_runners recipe dataset →
  (run recipe dataset).1
  = inl (AttributeError "'NoneType' object has no attribute 'close'") ∧
  (calls (run recipe dataset).2).*1.*1 = declared_stages recipe ∧
  all_returned (calls (run recipe dataset).2) ∧
  clusters (run recipe dataset).2 = [] ∧
  clients (run recipe dataset).2 = [] ∧
  closes (run recipe dataset).2 = [].
Proof.
  intros Haddr Hlocal Hown. pose proof Hown as ([input Hinput] & _).
  unfold run, init_flow, mseq, lift. rewrite Hinput.
  pose proof (for_each_invariant
                (λ process, for_each (stages process) (stage_body recipe dataset))
                (λ seen l tr,
                   client l = None ∧ only_calls tr ∧
                   (calls tr).*1.*1 = concat (stages <$> seen) ∧
                   all_returned (calls tr))
                (λ _, False) (pipeline recipe)) as Hloop.
  specialize (Hloop ltac:(
    intros seen process rest l tr Hdecl HI; cbv beta;
    rewrite fmap_app, concat_app; simpl; rewrite app_nil_r;
    apply (for_each_invariant (stage_body recipe dataset)
             (λ seen' l tr,
                client l = None ∧ only_calls tr ∧
                (calls tr).*1.*1 = concat (stages <$> seen) ++ seen' ∧
                all_returned (calls tr))
             (λ _, False) (stages process));
    [|by rewrite app_nil_r];
    intros seen' stage rest' l' tr' Hstages (Hc & Honly & Hseen & Hret);
    destruct (stage_body_own_runner recipe dataset stage l' tr' Haddr Hown)
      as (l'' & Hc' & ->);
    [unfold declared_stages; rewrite Hdecl, fmap_app, concat_app; simpl;
     rewrite Hstages, !elem_of_app, elem_of_cons; auto|];
    rewrite calls_app; simpl; rewrite !fmap_app, Hseen, app_assoc;
    split_and!; [congruence|by apply only_calls_call|done
                |by apply all_returned_snoc])).
  specialize (Hloop {| prefect_config_dict := Some ∅; client := None;
                       data := input; output := None |} []
                ltac:(split_and!; [done..|apply all_returned_nil])).
  destruct (for_each _ _ _ _) as [[e|l] tr]; [done|].
  destruct Hloop as (Hc & (Hcl & Hcs & _ & Hclose) & Hseen & Hret).
  rewrite Haddr, Hlocal, Hc. simpl. done.
Qed.

Lemma remote_ok_app address tr evs :
  remote_ok address tr → remote_ok address evs → remote_ok address (tr ++ evs).
Proof.
  intros (Hcl & Hclose & Hcs & Hlen) (Hcl' & Hclose' & Hcs' & Hlen').
  unfold remote_ok.
  rewrite clusters_app, closes_app, clients_app, calls_app, runners_app.
  rewrite Hcl, Hcl', Hclose, Hclose', !length_app. split_and!; [done..| |lia].
  intros a c [?|?]%elem_of_app; eauto.
Qed.

Lemma stage_body_remote recipe dataset address stage l tr :
  scheduler_address recipe = Some address → use_local_dask recipe = false →
  ∃ evs, (stage_body recipe dataset stage l tr).2 = tr ++ evs ∧
         remote_ok address evs.
Proof.
  intros Haddr Hlocal.
  assert (remote_ok address []) as Hnil.
  { split_and!; [done..| |done]. by intros a c ?%elem_of_nil. }
  unfold stage_body, select_backend, set_task_runner, mseq, lift, log, mpure,
    throw.
  rewrite Haddr, Hlocal. simpl.
  destruct (dynamic_function_call _ _) as [e|function]; simpl;
    [exists []; by rewrite app_nil_r|].
  destruct (get_prefect_config_dict _ _ _) as [e|pcd]; simpl;
    [exists []; by rewrite app_nil_r|].
  destruct (client l) as [c|]; simpl;
    [|destruct (new_Client address) as [e|c]; simpl;
      [exists []; by rewrite app_nil_r|]];
    (destruct pcd as [d|]; simpl;
     [destruct (with_options function _) as [e|function']; simpl;
      [|destruct (call function' dataset stage (data l)); simpl]|]);
    rewrite <- ?app_assoc; simpl;
    (eexists; split; [reflexivity|]);
    (split_and!; [done|done| |simpl; lia]);
    intros a c' Hin; simpl in Hin;
    repeat (apply elem_of_cons in Hin as [Hin|Hin]; [by injection Hin|]);
    by apply elem_of_nil in Hin.
Qed.

(** X5.  A remote scheduler.  For a recipe that names a scheduler address and
    does not ask for a local cluster, a run of [init_flow] creates no local
    cluster and closes nothing, every client it creates is connected to the
    address of the recipe, and it has built at least as many Dask task
    runners as it has called stages, however it ends. *)
Theorem init_flow_remote recipe dataset address :
  scheduler_address recipe = Some address → use_local_dask recipe = false →
  let tr := (run recipe dataset).2 in
  clusters tr = [] ∧ closes tr = [] ∧
  (∀ a c, (a, c) ∈ clients tr → a = address) ∧
  length (calls tr) ≤ length (runners tr).
Proof.
  intros Haddr Hlocal.
  assert (remote_ok address []) as Hnil.
  { split_and!; [done..| |done]. by intros a c ?%elem_of_nil. }
  unfold run, init_flow, mseq, lift.
  destruct (classified_files dataset) as [e|input]; [done|].
  pose proof (for_each_invariant
                (λ process, for_each (stages process) (stage_body recipe dataset))
                (λ _ _ tr, remote_ok address tr) (remote_ok address)
                (pipeline recipe)) as Hloop.
  specialize (Hloop ltac:(
    intros seen process rest l tr Hdecl HI;
    apply (for_each_invariant (stage_body recipe dataset)
             (λ _ _ tr, remote_ok address tr) (remote_ok address)
             (stages process)); [|done];
    intros seen' stage rest' l' tr' Hstages HI';
    destruct (stage_body_remote recipe dataset address stage l' tr' Haddr Hlocal)
      as (evs & Htr & Hevs);
    destruct (stage_body recipe dataset stage l' tr') as [[e|l''] tr''];
      simpl in Htr; subst tr''; by apply remote_ok_app)).
  specialize (Hloop {| prefect_config_dict := Some ∅; client := None;
                       data := input; output := None |} [] Hnil).
  destruct (for_each _ _ _ _) as [[e|l] tr]; [done|].
  rewrite Hlocal, andb_false_r. unfold mpure, throw. simpl.
  by destruct (output l).
Qed.
End init_flow_more_facts.

(** ** More on the chunker, the aggregator and the classifier *)

Section more_list_facts.
Lemma concat_Forall2_Permutation {A} (ls ls' : list (list A)) :
  Forall2 (≡ₚ) ls ls' → concat ls ≡ₚ concat ls'.
Proof.
  induction 1 as [|l l' ls ls' Hl _ IH]; simpl; [done|]. by rewrite Hl, IH.
Qed.

Lemma filter_key_cons {A} (key : A → Z) (k : Z) (ks : list Z) (l : list A) :
  k ∉ ks →
  filter (λ x, key x ∈ k :: ks) l
  ≡ₚ filter (λ x, key x = k) l ++ filter (λ x, key x ∈ ks) l.
Proof.
  intros Hk. induction l as [|x l IH]; [done|].
  rewrite !filter_cons.
  destruct (decide (key x = k)) as [Heq|Hne].
  - rewrite decide_True by (rewrite Heq; left).
    rewrite decide_False by (by rewrite Heq).
    simpl. by rewrite IH.
  - destruct (decide (key x ∈ ks)) as [Hin|Hnotin].
    + rewrite decide_True by (by right). rewrite IH. apply Permutation_middle.
    + rewrite decide_False; [done|]. by intros [?|?]%elem_of_cons.
Qed.

(** Reading a list key by key, over distinct keys, rearranges the elements
    that have one of these keys. *)
Lemma concat_filter_by_key {A} (key : A → Z) (ks : list Z) (l : list A) :
  NoDup ks →
  concat ((λ k, filter (λ x, key x = k) l) <$> ks)
  ≡ₚ filter (λ x, key x ∈ ks) l.
Proof.
  induction 1 as [|k ks Hk Hks IH]; simpl.
  - induction l as [|x l IHl]; [done|].
    rewrite filter_cons_False; [done|]. apply not_elem_of_nil.
  - by rewrite filter_key_cons, IH.
Qed.

Lemma first_appearance_app (ts1 ts2 : list Z) :
  first_appearance (ts1 ++ ts2)
  = first_appearance ts1 ++ filter (λ t, t ∉ ts1) (first_appearance ts2).
Proof.
  induction ts1 as [|t ts1 IH]; simpl.
  - symmetry. apply filter_all. intros t _. apply not_elem_of_nil.
  - rewrite IH, filter_app, list_filter_filter. do 2 f_equal.
    apply list_filter_iff. intros t'. simpl. rewrite elem_of_cons. tauto.
Qed.
End more_list_facts.

Section more_tasks_facts.
Import Py Tasks.

(** X6.  The order of the input does not matter.  For two lists of raw-file
    records that are rearrangements of one another, [parse_raw_json] returns
    for both, with the same number of batches; batch by batch, the two
    results hold the same records (as rearrangements) and the same days in
    the same order. *)
Theorem parse_raw_json_permutation (raw_dicts raw_dicts' : list RawDict) :
  raw_dicts ≡ₚ raw_dicts' →
  ∃ all_weeks all_weeks',
    parse_raw_json raw_dicts = Some all_weeks ∧
    parse_raw_json raw_dicts' = Some all_weeks' ∧
    Forall2 (≡ₚ) all_weeks all_weeks' ∧
    Forall2 (λ week week', jday <$> week = jday <$> week') all_weeks all_weeks'.
Proof.
  intros Hperm. rewrite !parse_raw_json_eq. eexists _, _.
  split; [done|]. split; [done|].
  assert (split_days raw_dicts' = split_days raw_dicts) as ->.
  { unfold split_days, all_jdays.
    by rewrite (list_to_set_perm_L (C := gset Z) (jday <$> raw_dicts')
                  (jday <$> raw_dicts)) by (by rewrite Hperm). }
  split.
  - apply Forall2_fmap, Forall_Forall2_diag, Forall_forall. intros week _.
    apply concat_Forall2_Permutation, Forall2_fmap, Forall_Forall2_diag.
    apply Forall_forall. intros d _. unfold on_day. by rewrite Hperm.
  - apply Forall2_fmap, Forall_Forall2_diag, Forall_forall. intros week _.
    induction week as [|d week IH]; simpl; [done|].
    rewrite !fmap_app. f_equal; [|apply IH].
    assert (∀ l : list RawDict,
              jday <$> on_day d l = replicate (length (on_day d l)) d) as Hrep.
    { intros l. unfold on_day. induction l as [|r l IHl]; [done|].
      rewrite filter_cons. case_decide as Hd; [|done].
      rewrite fmap_cons, IHl, Hd. done. }
    rewrite !Hrep. f_equal. unfold on_day. by rewrite Hperm.
Qed.
End more_tasks_facts.

Section more_aggregator_facts.
Import Py FileUtils.

Lemma concat_transect_groups ed_list :
  concat (transect_groups ed_list) ≡ₚ ed_list.
Proof.
  unfold transect_groups, with_transect.
  rewrite (concat_filter_by_key transect) by apply NoDup_first_appearance.
  rewrite filter_all; [done|]. intros ed Hed.
  apply elem_of_first_appearance. by apply list_elem_of_fmap_2.
Qed.

(** X7.  Nothing is lost, nothing is added.  For every list of result
    records none of which has its error flag set, the records of the outputs
    of [process_output_transects], put together, are a rearrangement of the
    input: every record is in one output, as often as in the input; and the
    records of one output have the same transect. *)
Theorem process_output_transects_keeps_all (name : string) (ed_list : list Ed) :
  (∀ ed, ed ∈ ed_list → error ed = false) →
  ∃ outputs,
    process_output_transects name ed_list = inr outputs ∧
    concat (output_data <$> outputs) ≡ₚ ed_list ∧
    (∀ output ed ed', output ∈ outputs →
       ed ∈ output_data output → ed' ∈ output_data output →
       transect ed = transect ed').
Proof.
  intros Herr. exists (Build_Output <$> transect_groups ed_list).
  split; [by apply process_output_transects_eq|].
  rewrite <- list_fmap_compose.
  rewrite (list_fmap_ext _ id (transect_groups ed_list)) by done.
  rewrite list_fmap_id. split; [apply concat_transect_groups|].
  intros output ed ed' (g & -> & Hg)%list_elem_of_fmap. simpl.
  apply list_elem_of_fmap in Hg as (t & -> & _).
  by intros [-> _]%list_elem_of_filter [-> _]%list_elem_of_filter.
Qed.

(** X8.  Lists without a common transect.  For two lists of result records
    without error flag such that no transect occurs in both, aggregating the
    first list followed by the second returns the outputs of the first
    followed by the outputs of the second. *)
Theorem process_output_transects_app (name : string) (ed_list1 ed_list2 : list Ed) :
  (∀ ed, ed ∈ ed_list1 ++ ed_list2 → error ed = false) →
  (∀ ed1 ed2, ed1 ∈ ed_list1 → ed2 ∈ ed_list2 → transect ed1 ≠ transect ed2) →
  ∃ outputs1 outputs2,
    process_output_transects name ed_list1 = inr outputs1 ∧
    process_output_transects name ed_list2 = inr outputs2 ∧
    process_output_transects name (ed_list1 ++ ed_list2)
    = inr (outputs1 ++ outputs2).
Proof.
  intros Herr Hdisj.
  rewrite !process_output_transects_eq
    by (try done; intros ed Hed; apply Herr, elem_of_app; auto).
  eexists _, _. split; [done|]. split; [done|].
  f_equal. rewrite <- fmap_app. f_equal.
  unfold transect_groups. rewrite fmap_app, first_appearance_app, fmap_app.
  assert (∀ t ed_list, t ∉ transect <$> ed_list → with_transect t ed_list = [])
    as Hnone.
  { intros t l Ht. unfold with_transect.
    induction l as [|ed l IH]; [done|].
    rewrite filter_cons_False.
    - apply IH. intros Hin. apply Ht. by right.
    - intros Heq. apply Ht. rewrite <- Heq. left. }
  assert (∀ t, t ∈ transect <$> ed_list1 → t ∉ transect <$> ed_list2) as Hsep.
  { intros t (ed1 & -> & Hed1)%list_elem_of_fmap
             (ed2 & Heq & Hed2)%list_elem_of_fmap.
    by apply (Hdisj ed1 ed2). }
  f_equal.
  - apply fmap_ext_in. intros t Ht.
    apply (proj1 (elem_of_first_appearance _ _)) in Ht.
    rewrite with_transect_app, (Hnone t ed_list2) by (by apply Hsep).
    by rewrite app_nil_r.
  - rewrite filter_all.
    + apply fmap_ext_in. intros t Ht.
      apply (proj1 (elem_of_first_appearance _ _)) in Ht.
      rewrite with_transect_app, (Hnone t ed_list1); [done|].
      intros Hin. by apply (Hsep t Hin).
    + intros t Ht Hin.
      apply (proj1 (elem_of_first_appearance _ _)) in Ht.
      by apply (Hsep t Hin).
Qed.
End more_aggregator_facts.

Section more_fetch_facts.
Import Py FetchUtils.
Context `{Libraries}.

Lemma lookup_setdefault {V} (k k' : string) (v : V) (d : gmap string V) :
  setdefault k v d !! k'
  = if decide (k = k') then Some (default v (d !! k)) else d !! k'.
Proof.
  unfold setdefault. destruct (d !! k) as [x|] eqn:Hk; case_decide; subst; simpl.
  - done.
  - done.
  - by rewrite lookup_insert_eq.
  - by rewrite lookup_insert_ne.
Qed.

(** X9.  A file with a timestamp.  When the pattern captures a [date] and a
    [time] group and the date parser accepts their concatenation,
    [parse_file_path] returns a dictionary without the keys [date] and
    [time]; under [datetime], [jday], [month] and [year] it holds the group
    of that name if the pattern captured one, and otherwise the ISO format,
    the day of the year, the month and the year of the parsed date; every
    other key is as captured. *)
Theorem parse_file_path_timestamp raw_file fname_pattern matcher groups
    date time datetime_obj :
  re_compile fname_pattern = inr matcher →
  search matcher raw_file = Some groups →
  groups !! "date" = Some date → groups !! "time" = Some time →
  parser_parse (format_group date +:+ format_group time) = inr datetime_obj →
  ∃ match_dict,
    parse_file_path raw_file fname_pattern = inr match_dict ∧
    match_dict !! "date" = None ∧ match_dict !! "time" = None ∧
    match_dict !! "datetime"
    = Some (from_option group_value (VStr (isoformat datetime_obj))
              (groups !! "datetime")) ∧
    match_dict !! "jday"
    = Some (from_option group_value (VInt (tm_yday datetime_obj))
              (groups !! "jday")) ∧
    match_dict !! "month"
    = Some (from_option group_value (VInt (dt_month datetime_obj))
              (groups !! "month")) ∧
    match_dict !! "year"
    = Some (from_option group_value (VInt (dt_year datetime_obj))
              (groups !! "year")) ∧
    (∀ k, k ∉ ["date"; "time"; "datetime"; "jday"; "month"; "year"] →
       match_dict !! k = group_value <$> groups !! k).
Proof.
  intros Hcompile Hsearch Hdate Htime Hparse. unfold parse_file_path.
  rewrite Hcompile. simpl. rewrite Hsearch. simpl.
  rewrite Hdate, Htime, Hparse. simpl. eexists. split; [done|].
  assert (∀ k : string, k ∉ ["date"; "time"] →
            delete "time" (delete "date" (group_value <$> groups)) !! k
            = group_value <$> groups !! k) as Hkeep.
  { intros k Hk. rewrite !lookup_delete_ne, lookup_fmap; [done|..];
      intros <-; apply Hk; [|right]; left. }
  rewrite !lookup_setdefault. simpl.
  split_and!.
  - by rewrite lookup_delete_ne, lookup_delete_eq.
  - by rewrite lookup_delete_eq.
  - rewrite Hkeep.
    + by destruct (groups !! "datetime").
    + by intros [[=]|[[=]|?%elem_of_nil]%elem_of_cons]%elem_of_cons.
  - rewrite Hkeep.
    + by destruct (groups !! "jday").
    + by intros [[=]|[[=]|?%elem_of_nil]%elem_of_cons]%elem_of_cons.
  - rewrite Hkeep.
    + by destruct (groups !! "month").
    + by intros [[=]|[[=]|?%elem_of_nil]%elem_of_cons]%elem_of_cons.
  - rewrite Hkeep.
    + by destruct (groups !! "year").
    + by intros [[=]|[[=]|?%elem_of_nil]%elem_of_cons]%elem_of_cons.
  - intros k Hk.
    assert (∀ k' : string, k' ∈ ["date"; "time"; "datetime"; "jday"; "month"; "year"] →
              k' ≠ k) as Hne by (by intros k' Hk' ->).
    rewrite !lookup_setdefault.
    rewrite !decide_False by (apply Hne; repeat first [by left|right]).
    apply Hkeep. intros Hin. apply Hk.
    apply elem_of_cons in Hin as [->|Hin]; [left|].
    apply elem_of_cons in Hin as [->|Hin]; [right; left|].
    by apply elem_of_nil in Hin.
Qed.

(** X10.  What a returned dictionary holds.  Whenever [parse_file_path]
    returns, the pattern compiled and matched, the dictionary has the key
    [datetime], every captured group other than [date] and [time] is in the
    dictionary with its captured value (a derived value never replaces a
    captured one), and the dictionary has no key other than the captured
    groups and [datetime], [month], [year], [jday]. *)
Theorem parse_file_path_keeps_groups raw_file fname_pattern match_dict :
  parse_file_path raw_file fname_pattern = inr match_dict →
  ∃ matcher groups,
    re_compile fname_pattern = inr matcher ∧
    search matcher raw_file = Some groups ∧
    is_Some (match_dict !! "datetime") ∧
    (∀ k group, k ∉ ["date"; "time"] → groups !! k = Some group →
       match_dict !! k = Some (group_value group)) ∧
    (∀ k, is_Some (match_dict !! k) →
       is_Some (groups !! k) ∨ k ∈ ["datetime"; "month"; "year"; "jday"]).
Proof.
  unfold parse_file_path.
  destruct (re_compile fname_pattern) as [e|matcher] eqn:Hcompile; simpl;
    [by intros ?|].
  destruct (search matcher raw_file) as [groups|] eqn:Hsearch; simpl;
    [|by intros ?].
  intros Hreturns. exists matcher, groups. split; [done|]. split; [done|].
  assert (∃ d : gmap string Value,
            (∀ k group, k ∉ ["date"; "time"] → groups !! k = Some group →
               d !! k = Some (group_value group)) ∧
            (∀ k, is_Some (d !! k) →
               is_Some (groups !! k) ∨ k ∈ ["month"; "year"; "jday"]) ∧
            ∃ v, match_dict = setdefault "datetime" v d)
    as (d & Hkeeps & Hkeys & v & ->).
  { destruct (groups !! "date") as [date|] eqn:Hdate;
      [destruct (groups !! "time") as [time|] eqn:Htime|].
    - destruct (parser_parse _) as [e|datetime_obj]; [done|].
      simpl in Hreturns. injection Hreturns as <-.
      eexists. split_and!; [| |by eexists].
      + intros k group Hk Hgroup. rewrite !lookup_setdefault.
        assert (delete "time" (delete "date" (group_value <$> groups)) !! k
                = Some (group_value group)) as Hd.
        { rewrite !lookup_delete_ne, lookup_fmap, Hgroup; [done|..];
            intros <-; apply Hk; [|right]; left. }
        repeat case_decide; subst; by rewrite ?Hd.
      + intros k. rewrite !lookup_setdefault.
        repeat case_decide; subst;
          try (intros _; right; repeat first [by left|right]; fail).
        intros [x Hx]. left.
        apply lookup_delete_Some in Hx as [_ Hx].
        apply lookup_delete_Some in Hx as [_ Hx].
        rewrite lookup_fmap in Hx. by destruct (groups !! k).
    - simpl in Hreturns. injection Hreturns as <-.
      exists (group_value <$> groups). split_and!; [| |by eexists].
      + intros k group _ Hgroup. by rewrite lookup_fmap, Hgroup.
      + intros k [x Hx]. left. rewrite lookup_fmap in Hx.
        by destruct (groups !! k).
    - simpl in Hreturns. injection Hreturns as <-.
      exists (group_value <$> groups). split_and!; [| |by eexists].
      + intros k group _ Hgroup. by rewrite lookup_fmap, Hgroup.
      + intros k [x Hx]. left. rewrite lookup_fmap in Hx.
        by destruct (groups !! k). }
  split_and!.
  - rewrite lookup_setdefault. by rewrite decide_True.
  - intros k group Hk Hgroup. rewrite lookup_setdefault.
    case_decide as Hdt; [|by apply Hkeeps].
    subst k. by rewrite (Hkeeps "datetime" group Hk Hgroup).
  - intros k. rewrite lookup_setdefault. case_decide as Hdt.
    + intros _. right. subst k. left.
    + intros [Hg|Hin]%Hkeys; [by left|]. right. by right.
Qed.
End more_fetch_facts.

(** ** stages_v2/subflows/echoflow.py: profiles and configuration blocks *)

Section remove_facts.
Import Echoflow.
Context {A : Type} `{EqDecision A}.
Implicit Types (test : A → bool) (l : list A).

Lemma list_remove_app_notin (x : A) l1 l2 :
  x ∉ l1 → list_remove x (l1 ++ x :: l2) = l1 ++ l2.
Proof.
  induction l1 as [|y l1 IH]; simpl; intros Hx.
  - by rewrite decide_True.
  - rewrite decide_False.
    + f_equal. apply IH. intros Hin. apply Hx. by right.
    + intros ->. apply Hx. left.
Qed.

Lemma list_remove_filter test (p : A) l :
  test p = true →
  filter (λ x, test x = false) (list_remove p l)
  = filter (λ x, test x = false) l.
Proof.
  intros Hp. induction l as [|y l IH]; simpl; [done|].
  case_decide as Hy.
  - subst y. rewrite filter_cons_False; [done|]. by rewrite Hp.
  - rewrite !filter_cons. case_decide; by rewrite IH.
Qed.

Lemma remove_in_loop_filter test fuel i l :
  filter (λ x, test x = false) (remove_in_loop test fuel i l)
  = filter (λ x, test x = false) l.
Proof.
  revert i l. induction fuel as [|fuel IH]; intros i l; simpl; [done|].
  destruct (l !! i) as [p|]; [|done]. rewrite IH.
  destruct (test p) eqn:Hp; [|done]. by apply list_remove_filter.
Qed.

Lemma remove_in_loop_none test fuel i l :
  Forall (λ x, test x = false) l → remove_in_loop test fuel i l = l.
Proof.
  intros Hl. revert i. induction fuel as [|fuel IH]; intros i; simpl; [done|].
  destruct (l !! i) as [p|] eqn:Hi; [|done].
  rewrite (proj1 (Forall_lookup _ _) Hl i p Hi). apply IH.
Qed.

Lemma remove_in_loop_one test fuel i l1 (p : A) l2 :
  Forall (λ x, test x = false) l1 → test p = true →
  Forall (λ x, test x = false) l2 →
  i ≤ length l1 → length l1 < i + fuel →
  remove_in_loop test fuel i (l1 ++ p :: l2) = l1 ++ l2.
Proof.
  intros Hl1 Hp Hl2. revert i.
  induction fuel as [|fuel IH]; intros i Hi Hfuel; simpl; [lia|].
  destruct (decide (i = length l1)) as [->|Hne].
  - rewrite list_lookup_middle by done. rewrite Hp.
    rewrite list_remove_app_notin.
    + apply remove_in_loop_none, Forall_app. by split.
    + intros Hin. apply (proj1 (Forall_forall _ _) Hl1) in Hin. congruence.
  - destruct (lookup_lt_is_Some_2 l1 i) as [x Hx]; [lia|].
    rewrite lookup_app_l by lia. rewrite Hx.
    rewrite (proj1 (Forall_lookup _ _) Hl1 i x Hx). apply IH; lia.
Qed.

Lemma at_most_one_split test l :
  length (filter (λ x, test x = true) l) ≤ 1 →
  Forall (λ x, test x = false) l
  ∨ ∃ l1 p l2, l = l1 ++ p :: l2 ∧ Forall (λ x, test x = false) l1 ∧
      test p = true ∧ Forall (λ x, test x = false) l2.
Proof.
  induction l as [|x l IH]; [by left|].
  rewrite filter_cons. destruct (test x) eqn:Hx.
  - rewrite decide_True by done. simpl. intros Hlen. right.
    exists [], x, l. split_and!; [done|done|done|].
    apply Forall_forall. intros y Hy. destruct (test y) eqn:Hty; [|done].
    assert (y ∈ filter (λ x, test x = true) l) as Hin
      by (by apply list_elem_of_filter).
    destruct (filter (λ x, test x = true) l); [|simpl in Hlen; lia].
    by apply elem_of_nil in Hin.
  - rewrite decide_False by done. intros Hlen.
    destruct (IH Hlen) as [Hall|(l1 & p & l2 & -> & Hl1 & Hp & Hl2)].
    + left. by constructor.
    + right. exists (x :: l1), p, l2. split_and!; try done. by constructor.
Qed.

(** The loop keeps the elements that fail the test, in their order. *)
Lemma remove_while_iterating_others test l :
  filter (λ x, test x = false) (remove_while_iterating test l)
  = filter (λ x, test x = false) l.
Proof. apply remove_in_loop_filter. Qed.

(** When at most one element passes the test, the loop removes it. *)
Lemma remove_while_iterating_filter test l :
  length (filter (λ x, test x = true) l) ≤ 1 →
  remove_while_iterating test l = filter (λ x, test x = false) l.
Proof.
  intros [Hall|(l1 & p & l2 & -> & Hl1 & Hp & Hl2)]%at_most_one_split.
  - unfold remove_while_iterating. rewrite remove_in_loop_none by done.
    symmetry. by apply filter_all, Forall_forall.
  - unfold remove_while_iterating.
    rewrite remove_in_loop_one; try done; [|lia|rewrite length_app; simpl; lia].
    rewrite filter_app, filter_cons_False by (by rewrite Hp).
    f_equal; symmetry; by apply filter_all, Forall_forall.
Qed.
End remove_facts.

Section echoflow_facts.
Import Py Echoflow.
Context `{Environment}.

Lemma name_test_false (name : string) (l : list string) :
  filter (λ p, bool_decide (p = name) = false) l = filter (λ p, p ≠ name) l.
Proof.
  apply list_filter_iff. intros p. by rewrite bool_decide_eq_false.
Qed.

Lemma name_test_true (name : string) (l : list string) :
  filter (λ p, bool_decide (p = name) = true) l = filter (λ p, p = name) l.
Proof.
  apply list_filter_iff. intros p. by rewrite bool_decide_eq_true.
Qed.

Lemma update_prefect_config_eq api_key account_id workspace_id name act w :
  update_prefect_config api_key account_id workspace_id name act w
  = (inr (),
     {| profiles_file := profiles_file w;
        echoflow_config :=
          Some {| active :=
                    if act then Some name
                    else (echoflow_config w ≫= prefect_configs) ≫=
                           λ _, active_profile_name w;
                  prefect_configs :=
                    Some (remove_while_iterating
                            (λ p, bool_decide (p = name))
                            (registered_profiles w) ++ [name]);
                  blocks :=
                    match echoflow_config w with
                    | Some config => blocks config
                    | None => Some []
                    end |};
        prefect_profiles :=
          <[name := {| prefect_account_id := account_id;
                       prefect_workspace_id := workspace_id;
                       prefect_api_key := api_key;
                       profile_name := name |}]> (prefect_profiles w);
        credentials := credentials w;
        online := online w;
        triggered := triggered w |}).
Proof.
  unfold update_prefect_config, wseq, try_except_ValueError,
    load_echoflow_config, save_echoflow_config, save_prefect_config,
    registered_profiles, active_profile_name.
  simpl. destruct (echoflow_config w) as [config|]; simpl.
  - destruct (prefect_configs config) as [configs|]; simpl; by destruct act.
  - by destruct act.
Qed.

Lemma update_base_config_eq name b_type act options w :
  update_base_config name b_type act options w
  = (inr (),
     {| profiles_file := profiles_file w;
        echoflow_config :=
          Some {| active :=
                    match echoflow_config w with
                    | Some _ => default_active
                    | None => None
                    end;
                  prefect_configs :=
                    match echoflow_config w with
                    | Some config => prefect_configs config
                    | None => Some []
                    end;
                  blocks :=
                    Some (remove_while_iterating
                            (λ b, bool_decide (base_name b = name))
                            (registered_blocks w)
                          ++ [{| base_name := name; base_type := b_type;
                                 base_active := act;
                                 base_options := options |}]) |};
        prefect_profiles := prefect_profiles w;
        credentials := credentials w;
        online := online w;
        triggered := triggered w |}).
Proof.
  unfold update_base_config, wseq, try_except_ValueError,
    load_echoflow_config, save_echoflow_config, registered_blocks.
  simpl. destruct (echoflow_config w) as [config|]; simpl; [|done].
  by destruct (blocks config).
Qed.

Lemma filter_and_not {A} (P : A → Prop) `{∀ x, Decision (P x)} (l : list A) :
  filter (λ x, P x ∧ ¬ P x) l = [].
Proof.
  induction l as [|x l IH]; [done|].
  rewrite filter_cons_False; [done|]. by intros [? ?].
Qed.

Lemma last_snoc' {A} (l : list A) (x : A) : last (l ++ [x]) = Some x.
Proof. by rewrite last_snoc. Qed.

(** X11.  Registering a profile.  [update_prefect_config] returns, for every
    state of the stored blocks.  Afterwards the block of the profile is
    saved under the profile name, the profile name is the last of the names
    the block [echoflow-config] lists, the other names it listed are still
    listed, in the same order, the profile is the active one if [active] is
    set, and the registered credential blocks and the file [profiles.toml]
    are as before. *)
Theorem update_prefect_config_registers
    api_key account_id workspace_id name act w :
  ∃ w',
    update_prefect_config api_key account_id workspace_id name act w
    = (inr (), w') ∧
    prefect_profiles w' !! name
    = Some {| prefect_account_id := account_id;
              prefect_workspace_id := workspace_id;
              prefect_api_key := api_key;
              profile_name := name |} ∧
    last (registered_profiles w') = Some name ∧
    filter (λ p, p ≠ name) (registered_profiles w')
    = filter (λ p, p ≠ name) (registered_profiles w) ∧
    (act = true → active_profile_name w' = Some name) ∧
    registered_blocks w' = registered_blocks w ∧
    profiles_file w' = profiles_file w ∧
    triggered w' = triggered w.
Proof.
  eexists. split; [apply update_prefect_config_eq|].
  split_and!; try done.
  - simpl. by rewrite lookup_insert_eq.
  - unfold registered_profiles at 1. simpl. apply last_snoc'.
  - unfold registered_profiles at 1. simpl.
    rewrite <- !name_test_false, filter_app, remove_while_iterating_others.
    rewrite filter_cons_False by (by rewrite bool_decide_eq_false; intros []).
    by rewrite app_nil_r.
  - by intros ->.
  - unfold registered_blocks. simpl. by destruct (echoflow_config w).
Qed.

(** X12.  Profile names stay distinct.  If the block [echoflow-config] lists
    no profile name twice, then after [update_prefect_config] it lists the
    names it listed before without the given name, followed by the given
    name, and again no name twice. *)
Theorem update_prefect_config_distinct
    api_key account_id workspace_id name act w :
  NoDup (registered_profiles w) →
  ∃ w',
    update_prefect_config api_key account_id workspace_id name act w
    = (inr (), w') ∧
    registered_profiles w'
    = filter (λ p, p ≠ name) (registered_profiles w) ++ [name] ∧
    NoDup (registered_profiles w').
Proof.
  intros Hnodup. eexists. split; [apply update_prefect_config_eq|].
  unfold registered_profiles at 1 3. simpl.
  fold (registered_profiles w).
  rewrite remove_while_iterating_filter, name_test_false.
  - split; [done|]. unfold registered_profiles at 1. simpl.
    apply NoDup_app. split_and!.
    + by apply NoDup_filter.
    + intros p [Hp _]%list_elem_of_filter ->%list_elem_of_singleton. done.
    + apply NoDup_singleton.
  - rewrite name_test_true.
    assert (NoDup (filter (λ p, p = name) (registered_profiles w))) as Hf
      by (by apply NoDup_filter).
    destruct (filter (λ p, p = name) (registered_profiles w))
      as [|p1 [|p2 l]] eqn:Heq; simpl; [lia|lia|].
    assert (p1 = name ∧ p2 = name) as [-> ->].
    { split.
      - assert (p1 ∈ filter (λ p, p = name) (registered_profiles w)) as Hin
          by (rewrite Heq; left).
        by apply list_elem_of_filter in Hin as [-> _].
      - assert (p2 ∈ filter (λ p, p = name) (registered_profiles w)) as Hin
          by (rewrite Heq; right; left).
        by apply list_elem_of_filter in Hin as [-> _]. }
    apply NoDup_cons in Hf as [Hf _]. exfalso. apply Hf. left.
Qed.

(** X13.  Registering twice is registering once.  If the given profile name
    is listed at most once, a second call of [update_prefect_config] with
    the same arguments changes nothing. *)
Theorem update_prefect_config_idempotent
    api_key account_id workspace_id name act w :
  length (filter (λ p, p = name) (registered_profiles w)) ≤ 1 →
  ∃ w',
    update_prefect_config api_key account_id workspace_id name act w
    = (inr (), w') ∧
    update_prefect_config api_key account_id workspace_id name act w'
    = (inr (), w').
Proof.
  intros Honce. eexists. split; [apply update_prefect_config_eq|].
  rewrite update_prefect_config_eq.
  unfold registered_profiles, active_profile_name in *. simpl.
  rewrite insert_insert_eq.
  set (old := default [] (echoflow_config w ≫= prefect_configs)) in *.
  rewrite (remove_while_iterating_filter _ old)
    by (by rewrite name_test_true).
  rewrite remove_while_iterating_filter.
  - rewrite filter_app, list_filter_filter.
    rewrite (filter_cons_False _ name)
      by (by rewrite bool_decide_eq_false; intros []).
    rewrite app_nil_r.
    rewrite (list_filter_iff
               (λ x, bool_decide (x = name) = false
                     ∧ bool_decide (x = name) = false)
               (λ x, bool_decide (x = name) = false)) by (intros; tauto).
    do 3 f_equal. destruct act; [done|].
    by destruct (echoflow_config w ≫= prefect_configs).
  - rewrite filter_app, name_test_true, name_test_false, list_filter_filter.
    rewrite filter_and_not. simpl. by rewrite length_filter.
Qed.

Lemma block_test_false (name : string) (l : list BaseConfig) :
  filter (λ b, bool_decide (base_name b = name) = false) l
  = filter (λ b, base_name b ≠ name) l.
Proof.
  apply list_filter_iff. intros p. by rewrite bool_decide_eq_false.
Qed.

Lemma NoDup_fmap_at_most_one {A} (f : A → string) (a : string) (l : list A) :
  NoDup (f <$> l) →
  length (filter (λ x, bool_decide (f x = a) = true) l) ≤ 1.
Proof.
  induction l as [|x l IH]; [simpl; lia|].
  rewrite fmap_cons, NoDup_cons. intros [Hx Hl]. rewrite filter_cons.
  case_decide as Hfx; [|by apply IH].
  apply bool_decide_eq_true in Hfx.
  assert (filter (λ x, bool_decide (f x = a) = true) l = []) as ->;
    [|simpl; lia].
  clear IH Hl. induction l as [|y l IH]; [done|].
  rewrite filter_cons_False.
  - apply IH. intros Hin. apply Hx. by right.
  - rewrite bool_decide_eq_true. intros Hy. apply Hx. rewrite Hfx, <- Hy. left.
Qed.

Lemma NoDup_fmap_filter {A} (f : A → string) (P : A → Prop)
    `{∀ x, Decision (P x)} (l : list A) :
  NoDup (f <$> l) → NoDup (f <$> filter P l).
Proof.
  induction l as [|x l IH]; [done|].
  rewrite fmap_cons, NoDup_cons. intros [Hx Hl]. rewrite filter_cons.
  case_decide; [|by apply IH].
  rewrite fmap_cons, NoDup_cons. split; [|by apply IH].
  intros (y & Hy & [_ Hin]%list_elem_of_filter)%list_elem_of_fmap.
  apply Hx. rewrite Hy. by apply list_elem_of_fmap_2.
Qed.

(** X14.  Registering a block of credentials.  [update_base_config] returns,
    for every state of the stored blocks.  Afterwards the new entry is the
    last of the blocks of [echoflow-config], the entries with another name
    are kept in their order, and the listed profile names are as before; but
    the active profile of an existing [echoflow-config] is replaced by the
    default of the class: the call does not pass it on. *)
Theorem update_base_config_registers name b_type act options w :
  ∃ w',
    update_base_config name b_type act options w = (inr (), w') ∧
    last (registered_blocks w')
    = Some {| base_name := name; base_type := b_type; base_active := act;
              base_options := options |} ∧
    filter (λ b, base_name b ≠ name) (registered_blocks w')
    = filter (λ b, base_name b ≠ name) (registered_blocks w) ∧
    registered_profiles w' = registered_profiles w ∧
    active_profile_name w' = (echoflow_config w ≫= λ _, default_active) ∧
    prefect_profiles w' = prefect_profiles w ∧
    profiles_file w' = profiles_file w.
Proof.
  eexists. split; [apply update_base_config_eq|].
  split_and!; try done.
  - unfold registered_blocks at 1. simpl. apply last_snoc'.
  - unfold registered_blocks at 1. simpl.
    rewrite <- !block_test_false, filter_app, remove_while_iterating_others.
    rewrite filter_cons_False by (by rewrite bool_decide_eq_false; intros []).
    by rewrite app_nil_r.
  - unfold registered_profiles. simpl. by destruct (echoflow_config w).
Qed.

(** X15.  Block names stay distinct.  If no two blocks of [echoflow-config]
    have the same name, then after [update_base_config] the blocks are the
    former ones without the one of the given name, followed by the new
    entry, and again no two have the same name. *)
Theorem update_base_config_distinct name b_type act options w :
  NoDup (base_name <$> registered_blocks w) →
  ∃ w',
    update_base_config name b_type act options w = (inr (), w') ∧
    registered_blocks w'
    = filter (λ b, base_name b ≠ name) (registered_blocks w)
      ++ [{| base_name := name; base_type := b_type; base_active := act;
             base_options := options |}] ∧
    NoDup (base_name <$> registered_blocks w').
Proof.
  intros Hnodup. eexists. split; [apply update_base_config_eq|].
  unfold registered_blocks at 1 3. simpl. fold (registered_blocks w).
  rewrite remove_while_iterating_filter, block_test_false
    by (by apply NoDup_fmap_at_most_one).
  split; [done|]. unfold registered_blocks at 1. simpl.
  rewrite fmap_app. apply NoDup_app. split_and!.
  - by apply NoDup_fmap_filter.
  - intros n (b & -> & [Hb _]%list_elem_of_filter)%list_elem_of_fmap.
    simpl. by intros ?%list_elem_of_singleton.
  - apply NoDup_singleton.
Qed.

(** X16.  AWS credentials.  [echoflow_config_AWS] returns; afterwards the
    credentials are stored under the given name, the credentials stored
    under other names are untouched, and [echoflow-config] has an entry of
    type [AwsCredentials] with this name as its last block, the entries with
    another name being kept. *)
Theorem echoflow_config_AWS_registers
    aws_key aws_secret token name region options act w :
  ∃ w',
    echoflow_config_AWS aws_key aws_secret token name region options act w
    = (inr (), w') ∧
    credentials w' !! name
    = Some (AwsCredentials aws_key aws_secret token region) ∧
    (∀ name', name' ≠ name → credentials w' !! name' = credentials w !! name') ∧
    last (registered_blocks w')
    = Some {| base_name := name; base_type := "AwsCredentials";
              base_active := act; base_options := options |} ∧
    filter (λ b, base_name b ≠ name) (registered_blocks w')
    = filter (λ b, base_name b ≠ name) (registered_blocks w).
Proof.
  unfold echoflow_config_AWS, wseq, save_credentials. simpl.
  rewrite update_base_config_eq. eexists. split; [done|]. simpl.
  split_and!.
  - by rewrite lookup_insert_eq.
  - intros name' Hne. by rewrite lookup_insert_ne.
  - unfold registered_blocks at 1. simpl. apply last_snoc'.
  - unfold registered_blocks at 1. simpl.
    rewrite <- !block_test_false, filter_app.
    unfold registered_blocks at 1. simpl. fold (registered_blocks w).
    rewrite remove_while_iterating_others.
    rewrite filter_cons_False by (by rewrite bool_decide_eq_false; intros []).
    by rewrite app_nil_r.
Qed.

(** X17.  Azure credentials.  Without a connection string
    [echoflow_config_AZ_cosmos] raises a [ValueError] and stores nothing.
    With one it returns; afterwards the credentials are stored under the
    given name and [echoflow-config] has an entry of type [AzCredentials]
    with this name as its last block, the entries with another name being
    kept. *)
Theorem echoflow_config_AZ_cosmos_registers
    name connection_string options act w :
  match connection_string with
  | None =>
      echoflow_config_AZ_cosmos name connection_string options act w
      = (inl (ValueError "Connection string cannot be empty."), w)
  | Some secret =>
      ∃ w',
        echoflow_config_AZ_cosmos name connection_string options act w
        = (inr (), w') ∧
        credentials w' !! name = Some (AzureCosmosDbCredentials secret) ∧
        last (registered_blocks w')
        = Some {| base_name := name; base_type := "AzCredentials";
                  base_active := act; base_options := options |} ∧
        filter (λ b, base_name b ≠ name) (registered_blocks w')
        = filter (λ b, base_name b ≠ name) (registered_blocks w)
  end.
Proof.
  destruct connection_string as [secret|]; [|done].
  unfold echoflow_config_AZ_cosmos, wseq, save_credentials. simpl.
  rewrite update_base_config_eq. eexists. split; [done|]. simpl.
  split_and!.
  - by rewrite lookup_insert_eq.
  - unfold registered_blocks at 1. simpl. apply last_snoc'.
  - unfold registered_blocks at 1. simpl.
    rewrite <- !block_test_false, filter_app.
    unfold registered_blocks at 1. simpl. fold (registered_blocks w).
    rewrite remove_while_iterating_others.
    rewrite filter_cons_False by (by rewrite bool_decide_eq_false; intros []).
    by rewrite app_nil_r.
Qed.

Lemma find_active_found config profiles keys a profile :
  toml_active config = Some a → profiles !! a = Some profile → a ∈ keys →
  find_active config profiles keys = inr profile.
Proof.
  intros Ha Hprofile. induction keys as [|p keys IH]; simpl.
  - by intros ?%elem_of_nil.
  - rewrite Ha. simpl. intros Hin. case_decide as Hp.
    + subst p. by rewrite Hprofile.
    + apply IH. by apply elem_of_cons in Hin as [?|?].
Qed.

Lemma get_active_profile_eq w config profiles a profile :
  profiles_file w = Some config → toml_profiles config = Some profiles →
  toml_active config = Some a → profiles !! a = Some profile →
  get_active_profile w = (inr profile, w).
Proof.
  intros Hfile Hprofiles Ha Hprofile.
  unfold get_active_profile, wseq, read_profiles, wlift. rewrite Hfile.
  rewrite Hprofiles. simpl.
  rewrite (find_active_found config profiles _ a profile); try done.
  apply list_elem_of_fmap. exists (a, profile). split; [done|].
  by apply elem_of_map_to_list.
Qed.

Lemma get_active_profile_world w : (get_active_profile w).2 = w.
Proof.
  unfold get_active_profile, wseq, read_profiles, wlift, wraise, wpure.
  destruct (profiles_file w) as [config|]; [|done].
  by destruct (toml_profiles config).
Qed.

(** X18.  A created profile is the active one.  When [profiles.toml] exists
    and has a table of profiles, [echoflow_create_prefect_profile] returns,
    and [get_active_profile] then returns the created profile: it has an API
    key only if the key, the workspace and the account were all given.  The
    block [echoflow-config] names the profile as active too, and the other
    profiles of the file are untouched. *)
Theorem create_profile_then_get_active
    name api_key workspace_id account_id w config profiles :
  profiles_file w = Some config → toml_profiles config = Some profiles →
  ∃ w' profile,
    echoflow_create_prefect_profile name api_key workspace_id account_id true w
    = (inr (), w') ∧
    get_active_profile w' = (inr profile, w') ∧
    profile !! "PREFECT_API_KEY"
    = (workspace_id ≫= λ _, account_id ≫= λ _, api_key) ∧
    active_profile_name w' = Some name ∧
    (∀ name', name' ≠ name →
       (file_profiles w' ≫= λ ps, ps !! name') = profiles !! name').
Proof.
  intros Hfile Hprofiles.
  unfold echoflow_create_prefect_profile, wseq, read_profiles, write_profiles.
  rewrite Hfile. simpl. rewrite Hprofiles. simpl.
  rewrite update_prefect_config_eq. simpl.
  destruct api_key, workspace_id, account_id; simpl;
    (eexists _, _; split; [done|]; split_and!;
     [ eapply get_active_profile_eq; simpl; try done; apply lookup_insert_eq
     | first [by rewrite lookup_insert_eq|by rewrite lookup_empty]
     | done
     | intros name' Hne; unfold file_profiles; simpl;
       by rewrite lookup_insert_ne ]).
Qed.

(** X19.  A profile created with [set_active=False].  The file
    [profiles.toml] gets the profile and keeps its active profile and its
    other profiles; the block [echoflow-config] nevertheless lists the new
    profile last and names it as the active one: the file and the block
    disagree. *)
Theorem create_profile_inactive
    name api_key workspace_id account_id w config profiles :
  profiles_file w = Some config → toml_profiles config = Some profiles →
  ∃ w' profile,
    echoflow_create_prefect_profile name api_key workspace_id account_id false w
    = (inr (), w') ∧
    file_active w' = toml_active config ∧
    (file_profiles w' ≫= λ ps, ps !! name) = Some profile ∧
    (∀ name', name' ≠ name →
       (file_profiles w' ≫= λ ps, ps !! name') = profiles !! name') ∧
    active_profile_name w' = Some name ∧
    last (registered_profiles w') = Some name.
Proof.
  intros Hfile Hprofiles.
  unfold echoflow_create_prefect_profile, wseq, read_profiles, write_profiles.
  rewrite Hfile. simpl. rewrite Hprofiles. simpl.
  rewrite update_prefect_config_eq. simpl.
  destruct api_key, workspace_id, account_id; simpl;
    (eexists _, _; split; [done|]; unfold file_profiles, file_active; simpl;
     split_and!;
     [ done
     | apply lookup_insert_eq
     | intros name' Hne; by rewrite lookup_insert_ne
     | done
     | unfold registered_profiles at 1; simpl; apply last_snoc' ]).
Qed.

(** X20.  Switching profiles.  When [profiles.toml] exists and has a table of
    profiles: for a name in the table [load_profile] returns, after which
    [get_active_profile] returns the profile of this name, the table is
    unchanged and the block [echoflow-config] is untouched; for a name that
    is not in the table it raises a [ValueError] and changes nothing. *)
Theorem load_profile_switches name w config profiles :
  profiles_file w = Some config → toml_profiles config = Some profiles →
  (∀ profile, profiles !! name = Some profile →
     ∃ w',
       load_profile name w = (inr (), w') ∧
       get_active_profile w' = (inr profile, w') ∧
       file_profiles w' = Some profiles ∧
       echoflow_config w' = echoflow_config w) ∧
  (profiles !! name = None →
     load_profile name w
     = (inl (ValueError "No such profile exists. Please try creating profile with this name"),
        w)).
Proof.
  intros Hfile Hprofiles.
  unfold load_profile, wseq, read_profiles, write_profiles.
  rewrite Hfile. simpl. rewrite Hprofiles. simpl. split.
  - intros profile Hname. rewrite Hname.
    eexists. split; [done|]. split_and!; try done.
    by eapply get_active_profile_eq.
  - by intros ->.
Qed.

Lemma create_profile_frame name api_key workspace_id account_id set_active w :
  triggered
    (echoflow_create_prefect_profile name api_key workspace_id account_id
       set_active w).2
  = triggered w
  ∧ online
      (echoflow_create_prefect_profile name api_key workspace_id account_id
         set_active w).2
    = online w.
Proof.
  unfold echoflow_create_prefect_profile, wseq, read_profiles, write_profiles,
    wraise, wpure.
  destruct (profiles_file w) as [config|]; [|done]. simpl.
  destruct set_active; simpl; destruct (toml_profiles config); simpl;
    try done; by rewrite update_prefect_config_eq.
Qed.

(** What [echoflow_start] does once the block [echoflow-config] is there. *)
Lemma echoflow_start_tail dataset_config pipeline_config logging_config
    (given : gmap string string) (options : gmap string OptionValue) w0 w :
  triggered w = triggered w0 → online w = online w0 →
  let tail :=
    wseq check_internet_connection (λ connected,
      wseq
        (if negb connected then
           wseq get_active_profile (λ active_profile,
             match active_profile !! "PREFECT_API_KEY" with
             | None => wraise KeyError
             | Some _ =>
                 wraise (ValueError "Please connect to internet or consider switching to a local prefect environment. This can be done by calling load_profile('echoflow-local') method.")
             end)
         else wpure ()) (λ _,
      wseq
        match options !! "storage_options_override" with
        | None => wraise KeyError
        | Some override =>
            wpure (if is_not_None override && eq_False override then ∅
                   else given)
        end (λ storage_options,
      call_pipeline_trigger dataset_config pipeline_config logging_config
        storage_options))) in
  (∃ e, (tail w).1 = inl e ∧ triggered (tail w).2 = triggered w0)
  ∨ (∃ override,
       online w0 = true ∧
       options !! "storage_options_override" = Some override ∧
       let passed :=
         if is_not_None override && eq_False override then ∅ else given in
       (tail w).1
       = pipeline_trigger dataset_config pipeline_config logging_config passed ∧
       triggered (tail w).2
       = triggered w0
         ++ [(dataset_config, pipeline_config, logging_config, passed)]).
Proof.
  intros Htriggered Honline tail. subst tail.
  unfold wseq, check_internet_connection, wpure, wraise, call_pipeline_trigger.
  simpl. rewrite !Honline. destruct (online w0); simpl.
  - destruct (options !! "storage_options_override") as [override|]; simpl.
    + right. exists override. by rewrite Htriggered.
    + left. by exists KeyError.
  - left. pose proof (get_active_profile_world w) as Hworld.
    destruct (get_active_profile w) as [[e|profile] w'];
      simpl in Hworld; subst w'.
    + by exists e.
    + destruct (profile !! "PREFECT_API_KEY"); simpl; by eexists.
Qed.

(** X21.  When the pipeline is triggered.  A call of [echoflow_start] either
    raises without having called [pipeline_trigger], or it has called
    [pipeline_trigger] exactly once, as its last step, and ends as that call
    ends.  The second case needs the network to be reachable and the options
    to have the key [storage_options_override] (with the default options the
    call raises); the storage options passed on are empty if the value of
    that key equals [False], and else the dictionary given, the one read
    from the given block, or the empty one if none was given. *)
Theorem echoflow_start_triggers dataset_config pipeline_config logging_config
    storage_options options w :
  (∃ e,
     (echoflow_start dataset_config pipeline_config logging_config
        storage_options options w).1 = inl e ∧
     triggered
       (echoflow_start dataset_config pipeline_config logging_config
          storage_options options w).2 = triggered w)
  ∨ (∃ override given,
       online w = true ∧
       options !! "storage_options_override" = Some override ∧
       match storage_options with
       | StorageNone => given = ∅
       | StorageDict d => given = d
       | StorageBlock b => get_storage_options b = inr given
       end ∧
       let passed :=
         if is_not_None override && eq_False override then ∅ else given in
       (echoflow_start dataset_config pipeline_config logging_config
          storage_options options w).1
       = pipeline_trigger dataset_config pipeline_config logging_config passed ∧
       triggered
         (echoflow_start dataset_config pipeline_config logging_config
            storage_options options w).2
       = triggered w
         ++ [(dataset_config, pipeline_config, logging_config, passed)]).
Proof.
  assert (∃ outcome : result (gmap string string),
            (match storage_options with
             | StorageBlock b => wlift (get_storage_options b)
             | StorageDict d => wpure d
             | StorageNone => wpure ∅
             end) w = (outcome, w) ∧
            ∀ given, outcome = inr given →
              match storage_options with
              | StorageNone => given = ∅
              | StorageDict d => given = d
              | StorageBlock b => get_storage_options b = inr given
              end) as (outcome & Hresolve & Hgiven).
  { destruct storage_options as [|d|b]; eexists; (split; [done|]).
    - by intros given [= <-].
    - by intros given [= <-].
    - done. }
  remember (echoflow_start dataset_config pipeline_config logging_config
              storage_options options w) as run eqn:Hrun.
  unfold echoflow_start in Hrun. unfold wseq at 1 in Hrun.
  rewrite Hresolve in Hrun.
  destruct outcome as [e|given]; [left; exists e; by subst run|].
  specialize (Hgiven given eq_refl).
  unfold wseq at 1 in Hrun.
  assert (∃ outcome' w1,
            try_except_ValueError
              (wseq load_echoflow_config (λ _, wpure ()))
              (echoflow_create_prefect_profile "echoflow-local" None None None
                 false) w = (outcome', w1) ∧
            triggered w1 = triggered w ∧ online w1 = online w)
    as (outcome' & w1 & Htry & Htriggered & Honline).
  { unfold try_except_ValueError, wseq, load_echoflow_config, wpure.
    destruct (echoflow_config w); simpl.
    - by eexists _, _.
    - destruct (create_profile_frame "echoflow-local" None None None false w)
        as [? ?].
      destruct (echoflow_create_prefect_profile _ _ _ _ _ w) as [? ?].
      by eexists _, _. }
  rewrite Htry in Hrun.
  destruct outcome' as [e|[]]; [left; exists e; by subst run|].
  destruct (echoflow_start_tail dataset_config pipeline_config logging_config
              given options w w1 Htriggered Honline)
    as [(e & He & Hsame)|(override & Hon & Hoverride & Hresult & Hcalls)];
    rewrite <- Hrun in *.
  - left. by exists e.
  - right. by exists override, given.
Qed.

(** X22.  Without a network.  On a machine that is offline, with the block
    [echoflow-config] in place and an active profile in [profiles.toml],
    [echoflow_start] raises and changes nothing: a [ValueError] asking to
    connect if the active profile has an API key, and a [KeyError] if it has
    none, that is, for a local profile. *)
Theorem echoflow_start_offline dataset_config pipeline_config logging_config
    storage_options options w current_config config profiles a profile :
  online w = false →
  echoflow_config w = Some current_config →
  profiles_file w = Some config → toml_profiles config = Some profiles →
  toml_active config = Some a → profiles !! a = Some profile →
  (∀ b, storage_options = StorageBlock b → ∃ d, get_storage_options b = inr d) →
  echoflow_start dataset_config pipeline_config logging_config
    storage_options options w
  = (inl (match profile !! "PREFECT_API_KEY" with
          | Some _ =>
              ValueError "Please connect to internet or consider switching to a local prefect environment. This can be done by calling load_profile('echoflow-local') method."
          | None => KeyError
          end), w).
Proof.
  intros Hoffline Hcurrent Hfile Hprofiles Ha Hprofile Hblock.
  unfold echoflow_start. unfold wseq at 1.
  assert (∃ given,
            (match storage_options with
             | StorageBlock b => wlift (get_storage_options b)
             | StorageDict d => wpure d
             | StorageNone => wpure ∅
             end) w = (inr given, w)) as [given ->].
  { destruct storage_options as [|d|b]; [by eexists|by eexists|].
    destruct (Hblock b eq_refl) as [d Hd]. exists d. unfold wlift.
    by rewrite Hd. }
  unfold wseq at 1, try_except_ValueError, wseq at 1, load_echoflow_config.
  rewrite Hcurrent. simpl.
  unfold wseq at 1, check_internet_connection. rewrite Hoffline. simpl.
  unfold wseq at 1 2.
  rewrite (get_active_profile_eq w config profiles a profile) by done.
  unfold wraise. by destruct (profile !! "PREFECT_API_KEY").
Qed.

End echoflow_facts.

(** * The code on concrete inputs *)

Section examples.
Import Py.
Local Existing Instance toy_collaborators.

(** The days 1 to 7, 9 and 10 give two batches: the records of the days 1 to
    7 and the records of the days 9 and 10. *)
Example parse_raw_json_nine_days :
  fmap (M := list) (fmap (M := list) Tasks.file_path)
    <$> Tasks.parse_raw_json nine_days
  = Some [["a"; "a2"; "b"; "c"; "d"; "e"; "f"; "g"]; ["i"; "j"]].
Proof. by vm_compute. Qed.

(** Two transects give two outputs, each with its records in input order. *)
Example process_output_transects_two_transects :
  FileUtils.process_output_transects "Convert" two_transects
  = inr [ {| FileUtils.output_data := [echodata 1 "a" false; echodata 1 "b" false] |};
          {| FileUtils.output_data := [echodata 2 "c" false] |} ].
Proof. reflexivity. Qed.

(** A file name with a date and a time: day 15 of 2017, month 1. *)
Example parse_file_path_date_time :
  FetchUtils.parse_file_path (H := toy_libraries)
    "EK60_2017-01-15T03:00:00.raw" date_time_pattern
  = inr (<[ "jday" := FetchUtils.VInt 15 ]>
           (<[ "year" := FetchUtils.VInt 2017 ]>
              (<[ "month" := FetchUtils.VInt 1 ]>
                 {[ "datetime" := FetchUtils.VStr "2017-01-15T03:00:00" ]}))).
Proof. by vm_compute. Qed.

(** Three stages that all ask for a local cluster: one cluster and one
    client are created, by the first stage, and the client is closed once,
    after the last stage. *)
Example init_flow_local_recipe :
  InitFlow.run (H := toy_collaborators) local_recipe None
  = (inr ["a.raw"; "b.raw";
          "echoflow.stages_v2.subflows.open_raw";
          "echoflow.stages_v2.subflows.combine";
          "echoflow.stages_v2.subflows.compute_Sv"],
     [InitFlow.EvLocalCluster 3;
      InitFlow.EvClient "tcp://127.0.0.1:8786" "tcp://127.0.0.1:8786";
      InitFlow.EvDaskTaskRunner "tcp://127.0.0.1:8786";
      InitFlow.EvCall (toy_stage "open_raw") ["a.raw"; "b.raw"]
        (inr ["a.raw"; "b.raw"; "echoflow.stages_v2.subflows.open_raw"]);
      InitFlow.EvDaskTaskRunner "tcp://127.0.0.1:8786";
      InitFlow.EvCall (toy_stage "combine")
        ["a.raw"; "b.raw"; "echoflow.stages_v2.subflows.open_raw"]
        (inr ["a.raw"; "b.raw"; "echoflow.stages_v2.subflows.open_raw";
              "echoflow.stages_v2.subflows.combine"]);
      InitFlow.EvDaskTaskRunner "tcp://127.0.0.1:8786";
      InitFlow.EvCall (toy_stage "compute_Sv")
        ["a.raw"; "b.raw"; "echoflow.stages_v2.subflows.open_raw";
         "echoflow.stages_v2.subflows.combine"]
        (inr ["a.raw"; "b.raw"; "echoflow.stages_v2.subflows.open_raw";
              "echoflow.stages_v2.subflows.combine";
              "echoflow.stages_v2.subflows.compute_Sv"]);
      InitFlow.EvClose "tcp://127.0.0.1:8786"]).
Proof. by vm_compute. Qed.

(** A stage with a task runner of its own gets no client; the stage runs,
    and the [close] at the end of the run finds [client] still [None]. *)
Example init_flow_own_runner_recipe :
  InitFlow.run own_runner_recipe None
  = (inl (AttributeError "'NoneType' object has no attribute 'close'"),
     [InitFlow.EvCall
        {| InitFlow.name := "open_raw";
           InitFlow.module := "echoflow.stages_v2.subflows";
           InitFlow.options := {[ "task_runner" := "ConcurrentTaskRunner" ]} |}
        ["a.raw"; "b.raw"]
        (inr ["a.raw"; "b.raw"; "echoflow.stages_v2.subflows.open_raw"])]).
Proof. by vm_compute. Qed.

(** The stand-ins do not raise, and the stages of [local_recipe] name no
    task runner. *)
Example local_recipe_cooperative : cooperative local_recipe None.
Proof.
  unfold cooperative. simpl. split_and!; eauto.
  intros stage _ Hstage. eexists. split; [done|]. intros _ _.
  repeat (apply elem_of_cons in Hstage as [->|Hstage]; [done|]).
  by apply elem_of_nil in Hstage.
Qed.
End examples.

(** C4.  A local cluster that is left open.  The recipe asks for a local
    cluster and also names a scheduler address: its stage gets a local
    cluster and a client on it, both created by the run, the run returns,
    and it has closed nothing.  The guard of the final [close] reads the
    recipe ([scheduler_address is None and use_local_dask == True]), not
    whether the run created the cluster. *)
Theorem init_flow_local_cluster_left_open :
  let run := InitFlow.run (H := toy_collaborators) local_recipe_with_address None in
  run.1 = inr ["a.raw"; "b.raw"; "echoflow.stages_v2.subflows.open_raw"] ∧
  InitFlow.clusters run.2 = [3] ∧
  InitFlow.clients run.2 = [("tcp://127.0.0.1:8786", "tcp://127.0.0.1:8786")] ∧
  InitFlow.runners run.2 = ["tcp://127.0.0.1:8786"] ∧
  InitFlow.closes run.2 = [].
Proof. by vm_compute. Qed.

(** * The theorems at concrete inputs *)

Lemma process_output_transects_fails_fast_witness :
  (∃ ed, ed ∈ one_failed ∧ FileUtils.error ed = true) ∧
  FileUtils.process_output_transects "Convert" one_failed
  = inl (Py.ValueError (FileUtils.failure_message "Convert")).
Proof.
  assert (∃ ed, ed ∈ one_failed ∧ FileUtils.error ed = true) as Hbad.
  { exists (echodata 1 "b" true). split; [right; left|reflexivity]. }
  split; [exact Hbad|].
  exact (proj1 (process_output_transects_fails_fast "Convert" one_failed Hbad)).
Defined.

Lemma two_transects_no_error :
  ∀ ed, ed ∈ two_transects → FileUtils.error ed = false.
Proof.
  intros ed Hed.
  repeat (apply elem_of_cons in Hed as [->|Hed]; [reflexivity|]).
  by apply elem_of_nil in Hed.
Qed.

Lemma process_output_transects_groups_witness :
  (∀ ed, ed ∈ two_transects → FileUtils.error ed = false) ∧
  ∃ outputs,
    FileUtils.process_output_transects "Convert" two_transects = inr outputs ∧
    length outputs = 2 ∧
    FileUtils.output_data <$> outputs
    = [[echodata 1 "a" false; echodata 1 "b" false]; [echodata 2 "c" false]].
Proof.
  split; [exact two_transects_no_error|].
  destruct (process_output_transects_groups "Convert" two_transects
              two_transects_no_error)
    as (outputs & Hreturns & Hlength & Hgroups & _).
  exists outputs. split; [exact Hreturns|]. split; [|exact Hgroups].
  rewrite Hlength. vm_compute. reflexivity.
Defined.

Lemma process_output_transects_idempotent_witness :
  (∀ ed, ed ∈ two_transects → FileUtils.error ed = false) ∧
  ∃ outputs,
    FileUtils.process_output_transects "Convert" two_transects = inr outputs ∧
    FileUtils.process_output_transects "Convert"
      (concat (FileUtils.output_data <$> outputs))
    = inr outputs.
Proof.
  split; [exact two_transects_no_error|].
  exact (process_output_transects_idempotent "Convert" two_transects
           two_transects_no_error).
Defined.

Lemma parse_file_path_no_timestamp_witness :
  let groups : gmap string (option string) := {[ "date" := Some "20170115" ]} in
  FetchUtils.re_compile (Libraries := toy_libraries) date_pattern = inr date_pattern ∧
  FetchUtils.search (Libraries := toy_libraries) date_pattern "EK60-20170115.raw"
  = Some groups ∧
  (groups !! "date" = None ∨ groups !! "time" = None) ∧
  ∃ match_dict,
    FetchUtils.parse_file_path (H := toy_libraries) "EK60-20170115.raw" date_pattern
    = inr match_dict ∧
    match_dict
    = Py.setdefault "datetime" FetchUtils.VNone (FetchUtils.group_value <$> groups).
Proof.
  intros groups.
  assert (groups !! "date" = None ∨ groups !! "time" = None) as Hmissing.
  { right. vm_compute. reflexivity. }
  split; [reflexivity|]. split; [vm_compute; reflexivity|].
  split; [exact Hmissing|].
  destruct (parse_file_path_no_timestamp (H := toy_libraries)
              "EK60-20170115.raw" date_pattern date_pattern groups
              eq_refl eq_refl Hmissing)
    as (match_dict & Hreturns & Hdict & _).
  exists match_dict. split; [exact Hreturns|exact Hdict].
Defined.

(** C8, the claim as stated.  A pattern with a [date] group and no [time]
    group matches the file name; the dictionary [parse_file_path] returns is
    not only the captured fields: besides [date] it has the key [datetime],
    with the value [None], which the pattern did not capture.  The last
    line of the function sets this key on every path. *)
Theorem parse_file_path_adds_datetime :
  let groups : gmap string (option string) := {[ "date" := Some "20170115" ]} in
  FetchUtils.re_compile (Libraries := toy_libraries) date_pattern = inr date_pattern ∧
  FetchUtils.search (Libraries := toy_libraries) date_pattern "EK60-20170115.raw"
  = Some groups ∧
  is_Some (groups !! "date") ∧ groups !! "time" = None ∧
  ∃ match_dict,
    FetchUtils.parse_file_path (H := toy_libraries) "EK60-20170115.raw" date_pattern
    = inr match_dict ∧
    groups !! "datetime" = None ∧
    match_dict !! "datetime" = Some FetchUtils.VNone ∧
    match_dict ≠ FetchUtils.group_value <$> groups.
Proof.
  intros groups.
  split; [reflexivity|]. split; [vm_compute; reflexivity|].
  split; [exists (Some "20170115"); vm_compute; reflexivity|].
  split; [vm_compute; reflexivity|].
  exists (<[ "datetime" := FetchUtils.VNone ]> (FetchUtils.group_value <$> groups)).
  split; [vm_compute; reflexivity|].
  assert (groups !! "datetime" = None) as Hnone by (vm_compute; reflexivity).
  split; [exact Hnone|]. split; [apply lookup_insert_eq|].
  intros Heq.
  assert ((<[ "datetime" := FetchUtils.VNone ]>
             (FetchUtils.group_value <$> groups)) !! "datetime"
          = (FetchUtils.group_value <$> groups) !! "datetime") as Hlookup
    by (by rewrite Heq).
  rewrite lookup_insert_eq, lookup_fmap, Hnone in Hlookup. discriminate.
Qed.

Lemma parse_file_path_no_match_witness :
  FetchUtils.re_compile (Libraries := toy_libraries) date_pattern = inr date_pattern ∧
  FetchUtils.search (Libraries := toy_libraries) date_pattern "README.md" = None ∧
  FetchUtils.parse_file_path (H := toy_libraries) "README.md" date_pattern
  = inl (Py.AttributeError "'NoneType' object has no attribute 'groupdict'").
Proof.
  split; [reflexivity|]. split; [vm_compute; reflexivity|].
  exact (proj1 (parse_file_path_no_match (H := toy_libraries)
                  "README.md" date_pattern date_pattern eq_refl eq_refl)).
Defined.

Lemma empty_recipe_no_stage :
  ∀ process, process ∈ InitFlow.pipeline empty_recipe → InitFlow.stages process = [].
Proof.
  intros process Hin.
  apply elem_of_cons in Hin as [->|Hin]; [reflexivity|].
  by apply elem_of_nil in Hin.
Qed.

Lemma init_flow_needs_a_stage_witness :
  (∀ process, process ∈ InitFlow.pipeline empty_recipe → InitFlow.stages process = []) ∧
  (InitFlow.run (H := toy_collaborators) empty_recipe None).1
  = inl (Py.UnboundLocalError "output").
Proof.
  split; [exact empty_recipe_no_stage|].
  destruct (init_flow_needs_a_stage (H := toy_collaborators) empty_recipe None
              empty_recipe_no_stage)
    as (_ & _ & Hraises).
  exact (proj2 (Hraises ["a.raw"; "b.raw"] eq_refl)).
Defined.

Lemma init_flow_stage_failure_is_fatal_witness :
  let opened := ["a.raw"; "b.raw"; "echoflow.stages_v2.subflows.open_raw"] in
  InitFlow.calls (InitFlow.run (H := failing_collaborators) local_recipe None).2
  = [(toy_stage "open_raw", ["a.raw"; "b.raw"], inr opened)]
    ++ (toy_stage "combine", opened, inl (Py.Propagated "RuntimeError")) :: [] ∧
  (InitFlow.run (H := failing_collaborators) local_recipe None).1
  = inl (Py.Propagated "RuntimeError").
Proof.
  intros opened.
  assert (InitFlow.calls
            (InitFlow.run (H := failing_collaborators) local_recipe None).2
          = [(toy_stage "open_raw", ["a.raw"; "b.raw"], inr opened)]
            ++ (toy_stage "combine", opened, inl (Py.Propagated "RuntimeError"))
               :: []) as Hcalls.
  { vm_compute. reflexivity. }
  split; [exact Hcalls|].
  exact (proj1 (proj2 (init_flow_stage_failure_is_fatal
                         (H := failing_collaborators) local_recipe None
                         _ _ _ _ _ Hcalls))).
Defined.

Lemma init_flow_close_ends_the_run_witness :
  "tcp://127.0.0.1:8786"
  ∈ InitFlow.closes (InitFlow.run (H := toy_collaborators) local_recipe None).2 ∧
  ∃ v tr,
    (InitFlow.run (H := toy_collaborators) local_recipe None).1 = inr v ∧
    (InitFlow.run (H := toy_collaborators) local_recipe None).2
    = tr ++ [InitFlow.EvClose (H := toy_collaborators) "tcp://127.0.0.1:8786"].
Proof.
  assert ("tcp://127.0.0.1:8786"
          ∈ InitFlow.closes
              (InitFlow.run (H := toy_collaborators) local_recipe None).2)
    as Hcloses.
  { assert (InitFlow.closes
              (InitFlow.run (H := toy_collaborators) local_recipe None).2
            = ["tcp://127.0.0.1:8786"]) as ->.
    - vm_compute. reflexivity.
    - left. }
  split; [exact Hcloses|].
  destruct (init_flow_close_ends_the_run (H := toy_collaborators)
              local_recipe None "tcp://127.0.0.1:8786" Hcloses)
    as (v & tr & Hreturns & Htrace & _).
  exists v, tr. split; [exact Hreturns|exact Htrace].
Defined.

Lemma init_flow_sequential_witness :
  InitFlow.clusters
    (InitFlow.run (H := toy_collaborators) sequential_recipe None).2 = [] ∧
  InitFlow.runners
    (InitFlow.run (H := toy_collaborators) sequential_recipe None).2 = [].
Proof.
  destruct (init_flow_sequential (H := toy_collaborators) sequential_recipe
              None eq_refl eq_refl)
    as (Hclusters & _ & Hrunners & _).
  split; [exact Hclusters|exact Hrunners].
Defined.

Lemma own_runner_recipe_own_runners :
  own_runners (H := toy_collaborators) own_runner_recipe None.
Proof.
  split_and!.
  - eexists. vm_compute. reflexivity.
  - intros stage _. eexists. reflexivity.
  - intros stage options Hstage.
    apply elem_of_cons in Hstage as [->|Hstage];
      [|by apply elem_of_nil in Hstage].
    eexists. split; [reflexivity|]. vm_compute. reflexivity.
  - intros function d. eexists. reflexivity.
  - intros function stage input _. eexists. reflexivity.
Qed.

Lemma init_flow_own_runners_close_fails_witness :
  own_runners (H := toy_collaborators) own_runner_recipe None ∧
  (InitFlow.run (H := toy_collaborators) own_runner_recipe None).1
  = inl (Py.AttributeError "'NoneType' object has no attribute 'close'").
Proof.
  split; [exact own_runner_recipe_own_runners|].
  exact (proj1 (init_flow_own_runners_close_fails (H := toy_collaborators)
                  own_runner_recipe None eq_refl eq_refl
                  own_runner_recipe_own_runners)).
Defined.

Lemma init_flow_remote_witness :
  InitFlow.clusters
    (InitFlow.run (H := toy_collaborators) remote_recipe None).2 = [] ∧
  InitFlow.closes
    (InitFlow.run (H := toy_collaborators) remote_recipe None).2 = [].
Proof.
  destruct (init_flow_remote (H := toy_collaborators) remote_recipe None
              "tcp://scheduler:8786" eq_refl eq_refl)
    as (Hclusters & Hcloses & _).
  split; [exact Hclusters|exact Hcloses].
Defined.

Lemma parse_raw_json_permutation_witness :
  [raw_on 9 "i"; raw_on 1 "a"] ≡ₚ [raw_on 1 "a"; raw_on 9 "i"] ∧
  ∃ all_weeks all_weeks',
    Tasks.parse_raw_json [raw_on 9 "i"; raw_on 1 "a"] = Some all_weeks ∧
    Tasks.parse_raw_json [raw_on 1 "a"; raw_on 9 "i"] = Some all_weeks' ∧
    Forall2 (≡ₚ) all_weeks all_weeks'.
Proof.
  assert ([raw_on 9 "i"; raw_on 1 "a"] ≡ₚ [raw_on 1 "a"; raw_on 9 "i"])
    as Hperm by apply perm_swap.
  split; [exact Hperm|].
  destruct (parse_raw_json_permutation _ _ Hperm)
    as (all_weeks & all_weeks' & Hweeks & Hweeks' & Hsame & _).
  exists all_weeks, all_weeks'.
  split; [exact Hweeks|]. split; [exact Hweeks'|exact Hsame].
Defined.

Lemma process_output_transects_keeps_all_witness :
  (∀ ed, ed ∈ two_transects → FileUtils.error ed = false) ∧
  ∃ outputs,
    FileUtils.process_output_transects "Convert" two_transects = inr outputs ∧
    concat (FileUtils.output_data <$> outputs) ≡ₚ two_transects.
Proof.
  split; [exact two_transects_no_error|].
  destruct (process_output_transects_keeps_all "Convert" two_transects
              two_transects_no_error)
    as (outputs & Hreturns & Hall & _).
  exists outputs. split; [exact Hreturns|exact Hall].
Defined.

Lemma first_and_second_transect_apart :
  ∀ ed1 ed2,
    ed1 ∈ [echodata 1 "a" false; echodata 1 "b" false] →
    ed2 ∈ [echodata 2 "c" false] →
    FileUtils.transect ed1 ≠ FileUtils.transect ed2.
Proof.
  intros ed1 ed2 Hed1 Hed2.
  apply list_elem_of_singleton in Hed2 as ->.
  repeat (apply elem_of_cons in Hed1 as [->|Hed1]; [by intros [=]|]).
  by apply elem_of_nil in Hed1.
Qed.

Lemma process_output_transects_app_witness :
  ∃ outputs1 outputs2,
    FileUtils.process_output_transects "Convert"
      [echodata 1 "a" false; echodata 1 "b" false] = inr outputs1 ∧
    FileUtils.process_output_transects "Convert" [echodata 2 "c" false]
    = inr outputs2 ∧
    FileUtils.process_output_transects "Convert" two_transects
    = inr (outputs1 ++ outputs2).
Proof.
  exact (process_output_transects_app "Convert"
           [echodata 1 "a" false; echodata 1 "b" false]
           [echodata 2 "c" false]
           two_transects_no_error first_and_second_transect_apart).
Defined.

Lemma parse_file_path_timestamp_witness :
  let groups : gmap string (option string) :=
    <[ "date" := Some "2017-01-15" ]> {[ "time" := Some "03:00:00" ]} in
  FetchUtils.search (Libraries := toy_libraries) date_time_pattern
    "EK60_2017-01-15T03:00:00.raw" = Some groups ∧
  ∃ match_dict,
    FetchUtils.parse_file_path (H := toy_libraries)
      "EK60_2017-01-15T03:00:00.raw" date_time_pattern = inr match_dict ∧
    match_dict !! "date" = None ∧
    match_dict !! "datetime" = Some (FetchUtils.VStr "2017-01-15T03:00:00") ∧
    match_dict !! "jday" = Some (FetchUtils.VInt 15).
Proof.
  intros groups.
  assert (FetchUtils.search (Libraries := toy_libraries) date_time_pattern
            "EK60_2017-01-15T03:00:00.raw" = Some groups) as Hsearch.
  { vm_compute. reflexivity. }
  assert (groups !! "date" = Some (Some "2017-01-15")) as Hdate.
  { vm_compute. reflexivity. }
  assert (groups !! "time" = Some (Some "03:00:00")) as Htime.
  { vm_compute. reflexivity. }
  assert (FetchUtils.parser_parse (Libraries := toy_libraries)
            (FetchUtils.format_group (Some "2017-01-15")
             +:+ FetchUtils.format_group (Some "03:00:00"))
          = inr (2017, 1, 15)%Z) as Hparse.
  { vm_compute. reflexivity. }
  split; [exact Hsearch|].
  destruct (parse_file_path_timestamp (H := toy_libraries)
              "EK60_2017-01-15T03:00:00.raw" date_time_pattern
              date_time_pattern groups (Some "2017-01-15") (Some "03:00:00")
              (2017, 1, 15)%Z eq_refl Hsearch Hdate Htime Hparse)
    as (match_dict & Hreturns & Hnodate & _ & Hdatetime & Hjday & _).
  exists match_dict. split; [exact Hreturns|]. split; [exact Hnodate|].
  split; [|exact Hjday].
  rewrite Hdatetime. vm_compute. reflexivity.
Defined.

Lemma parse_file_path_keeps_groups_witness :
  let match_dict : gmap string FetchUtils.Value :=
    <[ "datetime" := FetchUtils.VNone ]>
      {[ "date" := FetchUtils.VStr "20170115" ]} in
  FetchUtils.parse_file_path (H := toy_libraries) "EK60-20170115.raw"
    date_pattern = inr match_dict ∧
  ∃ matcher groups,
    FetchUtils.re_compile (Libraries := toy_libraries) date_pattern
    = inr matcher ∧
    FetchUtils.search (Libraries := toy_libraries) matcher "EK60-20170115.raw"
    = Some groups.
Proof.
  intros match_dict.
  assert (FetchUtils.parse_file_path (H := toy_libraries) "EK60-20170115.raw"
            date_pattern = inr match_dict) as Hreturns.
  { vm_compute. reflexivity. }
  split; [exact Hreturns|].
  destruct (parse_file_path_keeps_groups (H := toy_libraries)
              "EK60-20170115.raw" date_pattern match_dict Hreturns)
    as (matcher & groups & Hcompile & Hsearch & _).
  exists matcher, groups. split; [exact Hcompile|exact Hsearch].
Defined.

Lemma update_prefect_config_distinct_witness :
  NoDup (registered_profiles offline_world) ∧
  ∃ w',
    Echoflow.update_prefect_config None None None "cloud" true offline_world
    = (inr (), w') ∧
    registered_profiles w' = ["echoflow-local"; "cloud"].
Proof.
  assert (NoDup (registered_profiles offline_world)) as Hnodup.
  { apply (bool_decide_unpack _). vm_compute. exact I. }
  split; [exact Hnodup|].
  destruct (update_prefect_config_distinct None None None "cloud" true
              offline_world Hnodup)
    as (w' & Hreturns & Hprofiles & _).
  exists w'. split; [exact Hreturns|].
  rewrite Hprofiles. vm_compute. reflexivity.
Defined.

Lemma update_prefect_config_idempotent_witness :
  ∃ w',
    Echoflow.update_prefect_config None None None "cloud" true offline_world
    = (inr (), w') ∧
    Echoflow.update_prefect_config None None None "cloud" true w'
    = (inr (), w').
Proof.
  apply (update_prefect_config_idempotent None None None "cloud" true
           offline_world).
  vm_compute. lia.
Defined.

Lemma update_base_config_distinct_witness :
  NoDup (Echoflow.base_name <$> registered_blocks offline_world) ∧
  ∃ w',
    Echoflow.update_base_config "echoflow-aws-credentials" "AwsCredentials"
      true ∅ offline_world = (inr (), w') ∧
    length (registered_blocks w') = 1.
Proof.
  assert (NoDup (Echoflow.base_name <$> registered_blocks offline_world))
    as Hnodup.
  { apply (bool_decide_unpack _). vm_compute. exact I. }
  split; [exact Hnodup|].
  destruct (update_base_config_distinct "echoflow-aws-credentials"
              "AwsCredentials" true ∅ offline_world Hnodup)
    as (w' & Hreturns & Hblocks & _).
  exists w'. split; [exact Hreturns|].
  rewrite Hblocks. vm_compute. reflexivity.
Defined.

Lemma create_profile_then_get_active_witness :
  ∃ w' profile,
    Echoflow.echoflow_create_prefect_profile "second" (Some "pnu_2")
      (Some "ws") (Some "acc") true offline_world = (inr (), w') ∧
    Echoflow.get_active_profile w' = (inr profile, w') ∧
    profile !! "PREFECT_API_KEY" = Some "pnu_2".
Proof.
  destruct (create_profile_then_get_active "second" (Some "pnu_2") (Some "ws")
              (Some "acc") offline_world toy_toml toy_profiles
              eq_refl eq_refl)
    as (w' & profile & Hreturns & Hactive & Hkey & _).
  exists w', profile. split; [exact Hreturns|]. split; [exact Hactive|].
  exact Hkey.
Defined.

Lemma create_profile_inactive_witness :
  ∃ w',
    Echoflow.echoflow_create_prefect_profile "second" None None None false
      offline_world = (inr (), w') ∧
    file_active w' = Some "cloud" ∧
    active_profile_name w' = Some "second".
Proof.
  destruct (create_profile_inactive "second" None None None offline_world
              toy_toml toy_profiles eq_refl eq_refl)
    as (w' & profile & Hreturns & Hfile & _ & _ & Hblock & _).
  exists w'. split; [exact Hreturns|]. split; [exact Hfile|exact Hblock].
Defined.

Lemma load_profile_switches_witness :
  ∃ w',
    Echoflow.load_profile "echoflow-local" offline_world = (inr (), w') ∧
    Echoflow.get_active_profile w' = (inr ∅, w').
Proof.
  destruct (proj1 (load_profile_switches "echoflow-local" offline_world
                     toy_toml toy_profiles eq_refl eq_refl)
              ∅ ltac:(vm_compute; reflexivity))
    as (w' & Hreturns & Hactive & _).
  exists w'. split; [exact Hreturns|exact Hactive].
Defined.

Lemma echoflow_start_offline_witness :
  ∃ message,
    Echoflow.echoflow_start (H := toy_environment) "dataset.yaml"
      "pipeline.yaml" "logging.yaml" Echoflow.StorageNone ∅ offline_world
    = (inl (Py.ValueError message), offline_world).
Proof.
  assert (toy_profiles !! "cloud" = Some cloud_profile) as Hcloud.
  { vm_compute. reflexivity. }
  eexists.
  rewrite (echoflow_start_offline (H := toy_environment) "dataset.yaml"
             "pipeline.yaml" "logging.yaml" Echoflow.StorageNone ∅
             offline_world _ toy_toml toy_profiles "cloud" cloud_profile
             eq_refl eq_refl eq_refl eq_refl eq_refl Hcloud
             ltac:(intros b [=])).
  vm_compute. reflexivity.
Defined.
